(** * NeoUnity3D test-parity tooling: the method mapper and the coverage analyzer

    A shallow embedding of [detailed_method_mapping.py] and
    [test_coverage_analysis.py].

    Text is modelled as [list ascii] (type [str]); literals are written
    [$"..."].  Names and source text are taken to be ASCII: [lower] folds
    only [A-Z], and the regular-expression classes [\w] and [\s] are the
    ASCII ones.  Python dictionaries whose iteration order is observable are
    association lists in insertion order. *)

From Stdlib Require Import Ascii String List Arith Bool Lia ZArith QArith Qround Sorted.
Import ListNotations.

Local Open Scope list_scope.
Local Open Scope nat_scope.

(** ** Strings *)

Definition str := list ascii.

Notation "$ s" := (list_ascii_of_string s) (at level 1, format "$ s").

Fixpoint str_eqb (a b : str) : bool :=
  match a, b with
  | [], [] => true
  | x :: a', y :: b' => Ascii.eqb x y && str_eqb a' b'
  | _, _ => false
  end.

(** [str.lower()] on ASCII text: only [A-Z] is folded.  Outside ASCII
    Python's [lower] can also change the number of characters; nothing
    below relies on the length of a lower-cased text. *)
Definition lower_char (c : ascii) : ascii :=
  let n := nat_of_ascii c in
  if (65 <=? n) && (n <=? 90) then ascii_of_nat (n + 32) else c.

Definition lower (s : str) : str := map lower_char s.

(** [s.startswith(p)] *)
Fixpoint startswith (s p : str) {struct p} : bool :=
  match p with
  | [] => true
  | y :: p' =>
      match s with
      | [] => false
      | x :: s' => Ascii.eqb x y && startswith s' p'
      end
  end.

(** [s.endswith(p)] *)
Definition endswith (s p : str) : bool :=
  str_eqb (skipn (length s - length p) s) p.

(** [needle in hay] *)
Fixpoint contains (hay needle : str) : bool :=
  startswith hay needle ||
  match hay with
  | [] => false
  | _ :: hay' => contains hay' needle
  end.

(** What [needle in hay] decides: [needle] occurs inside [hay]. *)
Definition substring (needle hay : str) : Prop :=
  exists pre post, hay = pre ++ needle ++ post.

(** [s.split(sep)] for a one-character separator: the pieces between the
    separators, empty pieces included. *)
Fixpoint split (sep : ascii) (s : str) : list str :=
  match s with
  | [] => [[]]
  | c :: s' =>
      if Ascii.eqb c sep then [] :: split sep s'
      else match split sep s' with
           | [] => [[c]]
           | piece :: pieces => (c :: piece) :: pieces
           end
  end.

(** [''.join(parts)] *)
Definition join_empty (parts : list str) : str := concat parts.

(** [s.count(c)] for a single character. *)
Definition count_char (c : ascii) (s : str) : nat :=
  length (filter (Ascii.eqb c) s).

(** [s[a:b]] for non-negative [a] and [b]. *)
Definition slice (a b : nat) (s : str) : str := skipn a (firstn b s).

(** [s.rfind(c)] for a single character, counting from index [i]. *)
Fixpoint rfind_from (c : ascii) (s : str) (i : nat) : option nat :=
  match s with
  | [] => None
  | x :: s' =>
      match rfind_from c s' (S i) with
      | Some j => Some j
      | None => if Ascii.eqb x c then Some i else None
      end
  end.

(** [s.replace(old, new)] for a non-empty [old]: the occurrences of [old]
    are taken left to right without overlap.  [skip] counts the characters
    of an occurrence that are still to be passed over. *)
Fixpoint replace_from (old new s : str) (skip : nat) : str :=
  match s with
  | [] => []
  | c :: s' =>
      match skip with
      | S skip' => replace_from old new s' skip'
      | O =>
          if startswith s old then new ++ replace_from old new s' (length old - 1)
          else c :: replace_from old new s' 0
      end
  end.

Definition replace (old new s : str) : str := replace_from old new s 0.

(** ** Dictionaries in insertion order *)

Section Dict.
Context {V : Type}.

Definition dict := list (str * V).

Fixpoint dict_get (d : dict) (k : str) : option V :=
  match d with
  | [] => None
  | (k', v) :: d' => if str_eqb k k' then Some v else dict_get d' k
  end.

(** [k in d] *)
Definition dict_mem (d : dict) (k : str) : bool :=
  match dict_get d k with
  | Some _ => true
  | None => false
  end.

(** [d[k] = v]: an existing key keeps its place, a new one goes last. *)
Fixpoint dict_set (d : dict) (k : str) (v : V) : dict :=
  match d with
  | [] => [(k, v)]
  | (k', v') :: d' =>
      if str_eqb k k' then (k', v) :: d' else (k', v') :: dict_set d' k v
  end.

Definition keys (d : dict) : list str := map fst d.
Definition values (d : dict) : list V := map snd d.
End Dict.
Arguments dict V : clear implicits.

(** ** Numbers

    The ratios of both scripts are Python floats.  A finite value is kept as
    an exact rational, so the binary rounding error of a float is outside
    the model; [Inf] is [float('inf')].  A rounded value can therefore
    differ from the float's in its last digit; the statements below use
    rounded values only where the float computation is exact (0 and 100)
    or where only a threshold that the float respects as well matters. *)

Inductive number := Fin (q : Q) | Inf.

Definition round_half_even (q : Q) : Z :=
  let f := Qfloor q in
  match Qcompare (q - inject_Z f) (1 # 2) with
  | Lt => f
  | Gt => (f + 1)%Z
  | Eq => if Z.even f then f else (f + 1)%Z
  end.

(** [round(x, ndigits)]; [round(float('inf'), ndigits)] is [inf]. *)
Definition py_round (x : number) (ndigits : nat) : number :=
  match x with
  | Inf => Inf
  | Fin q =>
      let scale := inject_Z (10 ^ Z.of_nat ndigits) in
      Fin (Qred (inject_Z (round_half_even (q * scale)) / scale))
  end.

(** [a / b] on two counts, for a non-zero [b]. *)
Definition ratio (a b : nat) : Q := Qred (inject_Z (Z.of_nat a) / inject_Z (Z.of_nat b)).

Definition zero : number := Fin 0.

(** ** Regular expressions

    The fragment of Python's [re] that the two declaration patterns use,
    with its backtracking semantics: alternatives are tried left to right,
    [?] and [*] are greedy, and the first way of matching the whole pattern
    wins.  The matcher is written in continuation-passing style; the
    continuation is the rest of the pattern. *)

Inductive regex :=
| Lit (s : str)                    (* literal text *)
| Cls (p : ascii -> bool)          (* one character of a class *)
| Star (p : ascii -> bool)         (* [p*], greedy *)
| Cat (r1 r2 : regex)
| Opt (r : regex)                  (* [(?:r)?], greedy *)
| Alt (r1 r2 : regex)
| Group (n : nat) (r : regex).     (* capturing group number [n] *)

Definition Plus (p : ascii -> bool) : regex := Cat (Cls p) (Star p).

Definition captures := list (nat * str).

Fixpoint group (n : nat) (caps : captures) : str :=
  match caps with
  | [] => []
  | (m, s) :: caps' => if n =? m then s else group n caps'
  end.

Fixpoint star_cls {A} (p : ascii -> bool) (s : str) (k : str -> option A) : option A :=
  match s with
  | c :: s' =>
      if p c then
        match star_cls p s' k with
        | Some r => Some r
        | None => k s
        end
      else k s
  | [] => k s
  end.

Fixpoint rmatch {A} (r : regex) (s : str) (caps : captures)
    (k : str -> captures -> option A) : option A :=
  match r with
  | Lit l => if startswith s l then k (skipn (length l) s) caps else None
  | Cls p =>
      match s with
      | c :: s' => if p c then k s' caps else None
      | [] => None
      end
  | Star p => star_cls p s (fun s' => k s' caps)
  | Cat r1 r2 => rmatch r1 s caps (fun s1 caps1 => rmatch r2 s1 caps1 k)
  | Opt r1 =>
      match rmatch r1 s caps k with
      | Some x => Some x
      | None => k s caps
      end
  | Alt r1 r2 =>
      match rmatch r1 s caps k with
      | Some x => Some x
      | None => rmatch r2 s caps k
      end
  | Group n r1 =>
      rmatch r1 s caps
        (fun s' caps' => k s' ((n, firstn (length s - length s') s) :: caps'))
  end.

(** A match object: [m.start()], [m.end()] and the groups. *)
Record re_match := mk_re_match {
  m_start : nat;
  m_end : nat;
  m_groups : captures
}.

(** [pattern.match(content, pos)] where [s] is [content[pos:]]. *)
Definition match_at (r : regex) (s : str) (pos : nat) : option re_match :=
  rmatch r s [] (fun s' caps => Some (mk_re_match pos (pos + (length s - length s')) caps)).

(** [re.finditer]: the leftmost match, then the leftmost match that starts
    at or after its end, and so on.  [skip] counts the characters still
    covered by the previous match.  Both declaration patterns only match
    non-empty text; an empty match would be followed by a search from the
    next position. *)
Fixpoint finditer_from (r : regex) (s : str) (pos skip : nat) : list re_match :=
  match skip with
  | S skip' =>
      match s with
      | [] => []
      | _ :: s' => finditer_from r s' (S pos) skip'
      end
  | O =>
      match match_at r s pos with
      | Some m =>
          m :: match s with
               | [] => []
               | _ :: s' => finditer_from r s' (S pos) (m_end m - pos - 1)
               end
      | None =>
          match s with
          | [] => []
          | _ :: s' => finditer_from r s' (S pos) 0
          end
      end
  end.

Definition finditer (r : regex) (content : str) : list re_match :=
  finditer_from r content 0 0.

Definition in_range (lo hi : nat) (c : ascii) : bool :=
  let n := nat_of_ascii c in (lo <=? n) && (n <=? hi).

(** [\w] and [\s] on ASCII text. *)
Definition is_word (c : ascii) : bool :=
  in_range 97 122 c || in_range 65 90 c || in_range 48 57 c || Ascii.eqb c "_".

Definition is_space (c : ascii) : bool :=
  in_range 9 13 c || in_range 28 32 c.

Definition is_not (x : ascii) (c : ascii) : bool := negb (Ascii.eqb c x).

(** ** detailed_method_mapping.py *)

Module Mapping.

(** The dictionaries built by [extract_detailed_test_methods]. *)
Record swift_method := mk_swift {
  sw_name : str;
  sw_line : nat;
  sw_body_length : nat;
  sw_tests_async : bool;
  sw_has_assertions : bool;
  sw_mock_usage : bool;
  sw_error_testing : bool
}.

Record csharp_method := mk_csharp {
  cs_name : str;
  cs_line : nat;
  cs_return_type : str;
  cs_body_length : nat;
  cs_is_async : bool;
  cs_is_unity_test : bool;
  cs_has_assertions : bool;
  cs_mock_usage : bool;
  cs_performance_test : bool;
  cs_error_testing : bool
}.

(** *** Extraction *)

Fixpoint seq (rs : list regex) : regex :=
  match rs with
  | [] => Lit []
  | [r] => r
  | r :: rs' => Cat r (seq rs')
  end.

(** The Swift declaration pattern,
    "(?:public\s+)?func\s+(test\w+)\s*\([^)]*\)(?:\s+async)?(?:\s+throws)?\s*\{". *)
Definition swift_pattern : regex :=
  seq [ Opt (seq [Lit $"public"; Plus is_space]);
        Lit $"func"; Plus is_space;
        Group 1 (seq [Lit $"test"; Plus is_word]);
        Star is_space;
        Lit $"("; Star (is_not ")"); Lit $")";
        Opt (seq [Plus is_space; Lit $"async"]);
        Opt (seq [Plus is_space; Lit $"throws"]);
        Star is_space; Lit $"{" ].

(** The C# declaration pattern: an attribute that opens with "[Test" or
    "[UnityTest" and runs to the next "]", optional "public", optional
    "async", a return type "Task", "void" or "IEnumerator" (group 1), a
    name of word characters that contains "Test" (group 2), and a
    parenthesised parameter list without ")" inside. *)
Definition csharp_pattern : regex :=
  seq [ Lit $"["; Alt (Lit $"Test") (Lit $"UnityTest"); Star (is_not "]"); Lit $"]";
        Star is_space;
        Opt (seq [Lit $"public"; Plus is_space]);
        Opt (seq [Lit $"async"; Plus is_space]);
        Group 1 (Alt (Lit $"Task") (Alt (Lit $"void") (Lit $"IEnumerator")));
        Plus is_space;
        Group 2 (seq [Star is_word; Lit $"Test"; Star is_word]);
        Star is_space;
        Lit $"("; Star (is_not ")"); Lit $")" ].

Definition newline : ascii := ascii_of_nat 10.

(** [content[:match.start()].count('\n') + 1] *)
Definition line_start (content : str) (m : re_match) : nat :=
  count_char newline (slice 0 (m_start m) content) + 1.

(** The brace-counting loop
    [for i, char in enumerate(content[pos:], pos)]: [rest] is what is left
    of [content[pos:]] and [i] its index.  [Some e] is the value given to
    [method_end] before the [break]; [None] means the loop ran to the end
    of the text and [method_end] kept its initial value. *)
Fixpoint scan_braces (rest : str) (i : nat) (brace_count : Z) : option nat :=
  match rest with
  | [] => None
  | char :: rest' =>
      if Ascii.eqb char "{" then scan_braces rest' (S i) (brace_count + 1)
      else if Ascii.eqb char "}" then
        let brace_count := (brace_count - 1)%Z in
        if (brace_count =? 0)%Z then Some (i + 1)
        else scan_braces rest' (S i) brace_count
      else scan_braces rest' (S i) brace_count
  end.

Definition method_end_from (content : str) (pos : nat) : nat :=
  match scan_braces (skipn pos content) pos 0 with
  | Some e => e
  | None => pos
  end.

(** [len(method_body.split('\n'))] *)
Definition body_length (method_body : str) : nat :=
  length (split newline method_body).

Definition swift_method_body (content : str) (m : re_match) : str :=
  let pos := m_end m - 1 in
  slice (m_start m) (method_end_from content pos) content.

Definition swift_test_info (content : str) (m : re_match) : swift_method :=
  let method_name := group 1 (m_groups m) in
  let method_body := swift_method_body content m in
  mk_swift method_name
           (line_start content m)
           (body_length method_body)
           (contains method_body $"async" || contains method_body $"await")
           (contains method_body $"XCTAssert" || contains method_body $"XCTAssertEqual")
           (contains method_body $"mockUrlSession" || contains method_body $"Mock")
           (contains method_body $"XCTAssertThrowsError"
            || contains (lower method_name) $"throws").

(** The body as the specification words it for a scan that reaches the
    end of the text: the declaration with whatever text was scanned, which
    is then everything up to the end. *)
Definition spec_unbalanced_body (content : str) (m : re_match) : str :=
  slice (m_start m) (length content) content.

(** [while pos < len(content) and content[pos] != '{': pos += 1], with
    [rest] standing for [content[pos:]]. *)
Fixpoint find_open_brace (rest : str) (pos : nat) : nat :=
  match rest with
  | [] => pos
  | char :: rest' =>
      if Ascii.eqb char "{" then pos else find_open_brace rest' (S pos)
  end.

Definition csharp_method_body (content : str) (m : re_match) : str :=
  let pos := find_open_brace (skipn (m_end m) content) (m_end m) in
  let method_end := method_end_from content pos in
  if pos <? method_end then slice (m_start m) method_end content
  else slice (m_start m) (m_end m + 100) content.

Definition csharp_test_info (content : str) (m : re_match) : csharp_method :=
  let return_type := group 1 (m_groups m) in
  let method_name := group 2 (m_groups m) in
  let method_body := csharp_method_body content m in
  mk_csharp method_name
            (line_start content m)
            return_type
            (body_length method_body)
            (str_eqb return_type $"Task" || contains method_body $"async")
            (contains method_body $"[UnityTest]")
            (contains method_body $"Assert.")
            (contains method_body $"Mock")
            (contains method_body $"[Performance]")
            (contains method_body $"Throws" || contains method_body $"Exception").

(** What a block of Python code does: it returns a value or it raises. *)
Inductive outcome (A : Type) :=
| Returned (a : A)
| Raised.
Arguments Returned {A} a.
Arguments Raised {A}.

(** The dictionaries of one result list all have the same shape; which one
    depends on [is_swift]. *)
Inductive test_info :=
| SwiftInfo (m : swift_method)
| CSharpInfo (m : csharp_method).

(** The [try] block, run on the outcome of reading the file ([open] and
    [f.read()] raise on a missing file or on bytes that are not UTF-8). *)
Definition extract_body (file : outcome str) (is_swift : bool) : outcome (list test_info) :=
  match file with
  | Raised => Raised
  | Returned content =>
      Returned
        (if is_swift
         then map (fun m => SwiftInfo (swift_test_info content m))
                  (finditer swift_pattern content)
         else map (fun m => CSharpInfo (csharp_test_info content m))
                  (finditer csharp_pattern content))
  end.

(** [try: ... except Exception: return []] *)
Definition extract_detailed_test_methods (file : outcome str) (is_swift : bool)
  : outcome (list test_info) :=
  match extract_body file is_swift with
  | Returned methods => Returned methods
  | Raised => Returned []
  end.

(** *** Normalizing and matching *)

(** One step of the suffix loop:
    [if name.endswith(suffix): name = name[:-len(suffix)]]. *)
Definition strip_suffix (name suffix : str) : str :=
  if endswith name suffix then firstn (length name - length suffix) name
  else name.

(** What one step of the suffix loop removes. *)
Definition dropped (name suffix : str) : str :=
  if endswith name suffix then suffix else [].

Definition suffixes : list str := [$"_test"; $"test"; $"_tests"; $"tests"].

Definition normalize_test_name (name : str) : str :=
  let name := lower name in
  let name := if startswith name $"test" then skipn 4 name else name in
  let name := fold_left strip_suffix suffixes name in
  join_empty (split "_" name).

(** The suffix rule as the specification words it: of the four suffixes,
    only the first one that matches is dropped. *)
Fixpoint strip_first_suffix (sufs : list str) (name : str) : str :=
  match sufs with
  | [] => name
  | suffix :: rest =>
      if endswith name suffix then firstn (length name - length suffix) name
      else strip_first_suffix rest name
  end.

Definition spec_normalize (name : str) : str :=
  let name := lower name in
  let name := if startswith name $"test" then skipn 4 name else name in
  let name := strip_first_suffix suffixes name in
  join_empty (split "_" name).

Definition no_underscore (c : ascii) : bool := negb (Ascii.eqb c "_").

Inductive match_type := exact | partial.

Record match_result := mk_match {
  mr_match_type : match_type;
  mr_method : csharp_method
}.

Definition is_exact (swift_normalized : str) (cs_method : csharp_method) : bool :=
  str_eqb swift_normalized (normalize_test_name (cs_name cs_method)).

Definition is_partial (swift_normalized : str) (cs_method : csharp_method) : bool :=
  let cs_normalized := normalize_test_name (cs_name cs_method) in
  contains cs_normalized swift_normalized || contains swift_normalized cs_normalized.

(** The two tests as propositions. *)
Definition Exact (swift_normalized : str) (cs_method : csharp_method) : Prop :=
  swift_normalized = normalize_test_name (cs_name cs_method).

Definition Partial (swift_normalized : str) (cs_method : csharp_method) : Prop :=
  substring swift_normalized (normalize_test_name (cs_name cs_method)) \/
  substring (normalize_test_name (cs_name cs_method)) swift_normalized.

(** [c] is the first element of [l], in list order, that satisfies [P]. *)
Definition first_such {A} (P : A -> Prop) (c : A) (l : list A) : Prop :=
  exists before after,
    l = before ++ c :: after /\ P c /\ Forall (fun x => ~ P x) before.

(** A [for] loop over the candidates that returns at the first hit. *)
Fixpoint first_hit (test : csharp_method -> bool) (csharp_methods : list csharp_method)
  : option csharp_method :=
  match csharp_methods with
  | [] => None
  | cs_method :: rest => if test cs_method then Some cs_method else first_hit test rest
  end.

Definition find_matching_c_sharp_method
    (swift_method : swift_method) (csharp_methods : list csharp_method)
  : option match_result :=
  let swift_normalized := normalize_test_name (sw_name swift_method) in
  match first_hit (is_exact swift_normalized) csharp_methods with
  | Some cs_method => Some (mk_match exact cs_method)
  | None =>
      match first_hit (is_partial swift_normalized) csharp_methods with
      | Some cs_method => Some (mk_match partial cs_method)
      | None => None
      end
  end.

(** An element of [analysis['matched_methods']]. *)
Record matched_entry := mk_matched {
  me_swift : swift_method;
  me_csharp : csharp_method;
  me_match_type : match_type
}.

Record coverage_stats := mk_stats {
  coverage_percentage : number;
  enhancement_factor : number;
  exact_matches : nat;
  partial_matches : nat;
  missing_methods : nat;
  enhancement_methods : nat
}.

Record analysis := mk_analysis {
  a_swift_file : str;
  a_csharp_file : str;
  a_swift_methods : nat;
  a_csharp_methods : nat;
  matched_methods : list matched_entry;
  unmatched_swift : list swift_method;
  extra_csharp : list csharp_method;
  a_coverage_stats : coverage_stats
}.

(** The state of the matching loop: [analysis['matched_methods']],
    [analysis['unmatched_swift']] and the set [matched_cs_methods] of
    claimed target names. *)
Record loop_state := mk_loop {
  ls_matched : list matched_entry;
  ls_unmatched : list swift_method;
  ls_matched_cs_methods : list str
}.

Definition str_eq_dec : forall a b : str, {a = b} + {a <> b} :=
  list_eq_dec ascii_dec.

(** [matched_cs_methods.add(name)] *)
Definition set_add (name : str) (s : list str) : list str :=
  if in_dec str_eq_dec name s then s else s ++ [name].

(** [name in matched_cs_methods] *)
Definition set_mem (name : str) (s : list str) : bool :=
  if in_dec str_eq_dec name s then true else false.

Definition match_step (csharp_methods : list csharp_method)
    (st : loop_state) (swift_method : swift_method) : loop_state :=
  match find_matching_c_sharp_method swift_method csharp_methods with
  | Some m =>
      mk_loop (ls_matched st ++ [mk_matched swift_method (mr_method m) (mr_match_type m)])
              (ls_unmatched st)
              (set_add (cs_name (mr_method m)) (ls_matched_cs_methods st))
  | None =>
      mk_loop (ls_matched st) (ls_unmatched st ++ [swift_method])
              (ls_matched_cs_methods st)
  end.

(** What one reference method adds to [matched_methods]. *)
Definition matched_of (csharp_methods : list csharp_method)
    (swift_method : swift_method) : list matched_entry :=
  match find_matching_c_sharp_method swift_method csharp_methods with
  | Some m => [mk_matched swift_method (mr_method m) (mr_match_type m)]
  | None => []
  end.

Definition has_match (csharp_methods : list csharp_method)
    (swift_method : swift_method) : bool :=
  match find_matching_c_sharp_method swift_method csharp_methods with
  | Some _ => true
  | None => false
  end.

(** The names of the targets in a list of matches. *)
Definition claimed_names (matched : list matched_entry) : list str :=
  map (fun e => cs_name (me_csharp e)) matched.

Definition match_loop (swift_methods : list swift_method)
    (csharp_methods : list csharp_method) : loop_state :=
  fold_left (match_step csharp_methods) swift_methods (mk_loop [] [] []).

Definition is_type (t : match_type) (m : matched_entry) : bool :=
  match t, me_match_type m with
  | exact, exact | partial, partial => true
  | _, _ => false
  end.

Definition analyze_file_pair (swift_file csharp_file : str)
    (swift_methods : list swift_method) (csharp_methods : list csharp_method)
  : analysis :=
  let st := match_loop swift_methods csharp_methods in
  let extra :=
    filter (fun cs_method => negb (set_mem (cs_name cs_method) (ls_matched_cs_methods st)))
           csharp_methods in
  let stats :=
    mk_stats
      (py_round (match swift_methods with
                 | [] => zero
                 | _ => Fin (ratio (length (ls_matched st)) (length swift_methods) * 100)
                 end) 1)
      (py_round (match swift_methods with
                 | [] => zero
                 | _ => Fin (ratio (length csharp_methods) (length swift_methods))
                 end) 2)
      (length (filter (is_type exact) (ls_matched st)))
      (length (filter (is_type partial) (ls_matched st)))
      (length (ls_unmatched st))
      (length extra) in
  mk_analysis swift_file csharp_file (length swift_methods) (length csharp_methods)
              (ls_matched st) (ls_unmatched st) extra stats.

(** The running totals of [generate_detailed_mapping_report] and the two
    summary ratios computed from them. *)
Record totals := mk_totals {
  total_swift_methods : nat;
  total_matched_methods : nat;
  total_enhancement_methods : nat
}.

Definition add_totals (t : totals) (swift_methods : list swift_method) (a : analysis) : totals :=
  mk_totals (total_swift_methods t + length swift_methods)
            (total_matched_methods t + length (matched_methods a))
            (total_enhancement_methods t + length (extra_csharp a)).

Definition overall_coverage (t : totals) : number :=
  py_round (if 0 <? total_swift_methods t
            then Fin (ratio (total_matched_methods t) (total_swift_methods t) * 100)
            else zero) 1.

Definition overall_enhancement (t : totals) : number :=
  py_round (if 0 <? total_swift_methods t
            then Fin (ratio (total_matched_methods t + total_enhancement_methods t)
                            (total_swift_methods t))
            else zero) 2.

End Mapping.

(** ** test_coverage_analysis.py *)

Module Coverage.

(** [self.swift_tests] and [self.csharp_tests]: file name to method names. *)
Definition tests := dict (list str).

(** The keys of [self.categories], in the order of the literal. *)
Definition categories : list str :=
  [ $"contract"; $"crypto"; $"protocol"; $"script"; $"serialization";
    $"transaction"; $"types"; $"wallet"; $"witnessrule"; $"helpers"; $"core" ].

(** The loop [for cat_key in self.categories: if cat_key in
    file_path.lower(): category = cat_key; break]. *)
Fixpoint first_category (cat_keys : list str) (lowered : str) : str :=
  match cat_keys with
  | [] => $"other"
  | cat_key :: rest =>
      if contains lowered cat_key then cat_key else first_category rest lowered
  end.

Definition category_of (file_path : str) : str :=
  first_category categories (lower file_path).

(** [categorized[category][file_path] = methods] on the nested
    [defaultdict]. *)
Definition categorize_step (categorized : dict tests) (item : str * list str)
  : dict tests :=
  let category := category_of (fst item) in
  let files := match dict_get categorized category with
               | Some files => files
               | None => []
               end in
  dict_set categorized category (dict_set files (fst item) (snd item)).

Definition categorize_tests (test_dict : tests) : dict tests :=
  fold_left categorize_step test_dict [].

(** What [categorize_tests] has built after the files [done]: under each
    category exactly the files of [done] that belong to it, and a category
    for every file of [done]. *)
Definition categorized_from (categorized : dict tests) (done : tests) : Prop :=
  (forall category files,
      dict_get categorized category = Some files ->
      forall f methods,
        In (f, methods) files <->
        In (f, methods) done /\ category_of f = category) /\
  (forall f methods,
      In (f, methods) done -> In (category_of f) (keys categorized)).

(** [analyze_swift_tests] and [analyze_csharp_tests] store a file only
    when it has at least one test method: [if test_methods:
    self.swift_tests[str(relative_path)] = test_methods].  The directory
    walk is given as the list of the files it visits, each with the
    methods extracted from it. *)
Definition record_tests (d : tests) (item : str * list str) : tests :=
  match snd item with
  | [] => d
  | _ => dict_set d (fst item) (snd item)
  end.

Definition analyze_tests (visited : list (str * list str)) : tests :=
  fold_left record_tests visited [].

(** Each file's method list satisfies [Q]. *)
Definition all_methods (Q : list str -> Prop) (files : tests) : Prop :=
  Forall Q (values files).

(** [Path(f).name] of a relative path as [str(relative_path)] gives it:
    the part after the last separator. *)
Definition path_name (f : str) : str := last (split "/" f) [].

(** [Path(f).stem]: the name without its last suffix; a name that has no
    dot, or only a leading or a trailing one, is its own stem. *)
Definition path_stem (f : str) : str :=
  let name := path_name f in
  match rfind_from "." name 0 with
  | Some i => if (0 <? i) && (i <? length name - 1) then firstn i name else name
  | None => name
  end.

(** [Path(f).stem.replace('Tests', '')] *)
Definition file_id (f : str) : str := replace $"Tests" [] (path_stem f).

(** The identifier as the specification words it: the stem with a
    "Tests" at its end taken off. *)
Definition spec_file_id (f : str) : str :=
  let stem := path_stem f in
  if endswith stem $"Tests" then firstn (length stem - 5) stem else stem.

(** [sum(len(methods) for methods in files.values())] *)
Definition count_methods (files : tests) : nat :=
  fold_right (fun methods acc => length methods + acc) 0 (values files).

Record missing_category := mk_missing_category {
  mc_category : str;
  mc_files : list str;
  mc_test_count : nat
}.

Record missing_file := mk_missing_file {
  mf_category : str;
  mf_file : str;
  mf_missing_methods : nat;
  mf_methods : list str
}.

Record enhancement := mk_enhancement {
  en_category : str;
  en_swift_tests : nat;
  en_csharp_tests : nat;
  en_enhancement_factor : number
}.

Record missing_coverage := mk_missing_coverage {
  missing_files : list missing_file;
  missing_categories : list missing_category;
  partial_coverage : list str;          (* never appended to *)
  c_sharp_enhancements : list enhancement
}.

(** A [set] of strings, as the list of its elements.  Python leaves the
    iteration order of a set open; here it is the order of first
    insertion. *)
Fixpoint set_of (l : list str) : list str :=
  match l with
  | [] => []
  | x :: l' => x :: filter (fun y => negb (str_eqb y x)) (set_of l')
  end.

Definition set_difference (a b : list str) : list str :=
  filter (fun x => negb (existsb (str_eqb x) b)) a.

(** The files of one category that the other side lacks: the body of the
    [else] branch of the first loop. *)
Definition missing_in_category (category : str) (swift_files csharp_files : tests)
  : list missing_file :=
  let swift_file_names := set_of (map file_id (keys swift_files)) in
  let csharp_file_names := set_of (map file_id (keys csharp_files)) in
  let missing := set_difference swift_file_names csharp_file_names in
  flat_map
    (fun missing_file =>
       flat_map
         (fun item : str * list str =>
            if str_eqb (file_id (fst item)) missing_file
            then [mk_missing_file category (fst item) (length (snd item)) (snd item)]
            else [])
         swift_files)
    missing.

Definition enhancement_of (swift_categorized : dict tests)
    (item : str * tests) : list enhancement :=
  match dict_get swift_categorized (fst item) with
  | None => []
  | Some swift_files =>
      let csharp_total := count_methods (snd item) in
      let swift_total := count_methods swift_files in
      if swift_total <? csharp_total then
        [mk_enhancement (fst item) swift_total csharp_total
           (py_round (if 0 <? swift_total
                      then Fin (ratio csharp_total swift_total)
                      else Inf) 2)]
      else []
  end.

Definition find_missing_coverage (swift_tests csharp_tests : tests) : missing_coverage :=
  let swift_categorized := categorize_tests swift_tests in
  let csharp_categorized := categorize_tests csharp_tests in
  mk_missing_coverage
    (flat_map
       (fun item : str * tests =>
          match dict_get csharp_categorized (fst item) with
          | None => []
          | Some csharp_files => missing_in_category (fst item) (snd item) csharp_files
          end)
       swift_categorized)
    (flat_map
       (fun item : str * tests =>
          match dict_get csharp_categorized (fst item) with
          | None =>
              [mk_missing_category (fst item) (keys (snd item)) (count_methods (snd item))]
          | Some _ => []
          end)
       swift_categorized)
    []
    (flat_map (enhancement_of swift_categorized) csharp_categorized).

(** *** The report: the values it computes, without the formatting *)

Inductive status := COMPLETE | MISSING | PARTIAL.

Definition nonempty {A} (l : list A) : bool :=
  match l with
  | [] => false
  | _ => true
  end.

(** [d.get(category, {})] *)
Definition files_of (categorized : dict tests) (category : str) : tests :=
  match dict_get categorized category with
  | Some files => files
  | None => []
  end.

(** The conditional expression that chooses the heading of a category. *)
Definition category_status (swift_categorized csharp_categorized : dict tests)
    (category : str) : status :=
  let swift_files := files_of swift_categorized category in
  let csharp_files := files_of csharp_categorized category in
  let swift_count := count_methods swift_files in
  let csharp_count := count_methods csharp_files in
  if (swift_count <=? csharp_count) && nonempty csharp_files then COMPLETE
  else if negb (nonempty csharp_files) then MISSING
  else PARTIAL.

(** [set(swift_categorized.keys()) | set(csharp_categorized.keys())] *)
Definition all_categories (swift_categorized csharp_categorized : dict tests)
  : list str :=
  set_of (keys swift_categorized ++ keys csharp_categorized).


(** [round((csharp_total_methods / swift_total_methods) * 100
          if swift_total_methods > 0 else 0, 1)] *)
Definition final_coverage_percentage (swift_tests csharp_tests : tests) : number :=
  let swift_total_methods := count_methods swift_tests in
  let csharp_total_methods := count_methods csharp_tests in
  py_round (if 0 <? swift_total_methods
            then Fin (ratio csharp_total_methods swift_total_methods * 100)
            else zero) 1.


End Coverage.

(** ** What a pattern licenses

    [matches r w caps caps']: the pattern [r] can consume exactly the
    text [w], turning the captures [caps] into [caps']. *)

Inductive matches : regex -> str -> captures -> captures -> Prop :=
| matches_Lit l caps :
    matches (Lit l) l caps caps
| matches_Cls (p : ascii -> bool) c caps :
    p c = true -> matches (Cls p) [c] caps caps
| matches_Star (p : ascii -> bool) w caps :
    Forall (fun c => p c = true) w -> matches (Star p) w caps caps
| matches_Cat r1 r2 w1 w2 caps caps1 caps2 :
    matches r1 w1 caps caps1 -> matches r2 w2 caps1 caps2 ->
    matches (Cat r1 r2) (w1 ++ w2) caps caps2
| matches_Opt_taken r w caps caps' :
    matches r w caps caps' -> matches (Opt r) w caps caps'
| matches_Opt_skipped r caps :
    matches (Opt r) [] caps caps
| matches_Alt_left r1 r2 w caps caps' :
    matches r1 w caps caps' -> matches (Alt r1 r2) w caps caps'
| matches_Alt_right r1 r2 w caps caps' :
    matches r2 w caps caps' -> matches (Alt r1 r2) w caps caps'
| matches_Group n r w caps caps' :
    matches r w caps caps' -> matches (Group n r) w caps ((n, w) :: caps').

(** A text ends with [c]. *)
Definition ends_with (w : str) (c : ascii) : Prop := exists pre, w = pre ++ [c].

(** The matches of a list come in text order and do not overlap. *)
Definition in_order (a b : re_match) : Prop :=
  m_end a <= m_start b /\ m_start a < m_start b.

(** [depth_after b w]: the brace count after the text [w], started at [b]. *)
Definition depth_after (brace_count : Z) (w : str) : Z :=
  (brace_count + Z.of_nat (count_char "{" w) - Z.of_nat (count_char "}" w))%Z.

(** [k] is the offset of the closing brace that ends the scan of [rest]
    started with the count [b]: the count is zero after it, and after no
    closing brace before it. *)
Definition closes_at (rest : str) (b : Z) (k : nat) : Prop :=
  nth_error rest k = Some "}"%char /\
  depth_after b (firstn (S k) rest) = 0%Z /\
  forall j, j < k -> nth_error rest j = Some "}"%char ->
            depth_after b (firstn (S j) rest) <> 0%Z.

(** ** detailed_method_mapping.py: the report loop *)

Module MappingReport.
Import Mapping.

(** The line number of a record of either grammar. *)
Definition line_of (info : test_info) : nat :=
  match info with
  | SwiftInfo m => sw_line m
  | CSharpInfo m => cs_line m
  end.

(** The Swift and the C# records of an extraction result. *)
Definition swift_methods_of (result : outcome (list test_info)) : list swift_method :=
  match result with
  | Returned methods =>
      flat_map (fun info => match info with
                            | SwiftInfo m => [m]
                            | CSharpInfo _ => []
                            end) methods
  | Raised => []
  end.

Definition csharp_methods_of (result : outcome (list test_info)) : list csharp_method :=
  match result with
  | Returned methods =>
      flat_map (fun info => match info with
                            | CSharpInfo m => [m]
                            | SwiftInfo _ => []
                            end) methods
  | Raised => []
  end.

(** One entry of [key_pairs] with what the file system holds for it:
    [None] when [os.path.exists] is false, otherwise the outcome of
    reading the file. *)
Record key_pair := mk_key_pair {
  swift_rel : str;
  csharp_rel : str;
  swift_path : option (outcome str);
  csharp_path : option (outcome str)
}.

(** The analysis of one pair; [None] for the two [continue] branches. *)
Definition analyze_key_pair (kp : key_pair) : option (list swift_method * analysis) :=
  match swift_path kp, csharp_path kp with
  | Some swift_file, Some csharp_file =>
      let swift_methods :=
        swift_methods_of (extract_detailed_test_methods swift_file true) in
      let csharp_methods :=
        csharp_methods_of (extract_detailed_test_methods csharp_file false) in
      Some (swift_methods,
            analyze_file_pair (swift_rel kp) (csharp_rel kp) swift_methods csharp_methods)
  | _, _ => None
  end.

(** The body of [for swift_rel, csharp_rel in key_pairs] as far as the
    totals go. *)
Definition report_step (t : totals) (kp : key_pair) : totals :=
  match analyze_key_pair kp with
  | Some (swift_methods, a) => add_totals t swift_methods a
  | None => t
  end.

Definition report_totals (key_pairs : list key_pair) : totals :=
  fold_left report_step key_pairs (mk_totals 0 0 0).

(** [x >= q] on a ratio. *)
Definition number_geb (x : number) (q : Q) : bool :=
  match x with
  | Inf => true
  | Fin v => Qle_bool q v
  end.

Inductive status_emoji := OK | WARN | FAIL.

(** The mark in front of a file pair's heading. *)
Definition pair_status (a : analysis) : status_emoji :=
  let coverage := coverage_percentage (a_coverage_stats a) in
  if number_geb coverage 100 then OK
  else if number_geb coverage 50 then WARN
  else FAIL.

End MappingReport.

(** ** test_coverage_analysis.py: extraction, the directory walks, the verdict *)

Module CoverageReport.
Import Mapping Coverage MappingReport.

(** The Swift pattern of [extract_test_methods],
    "(?:public\s+)?func\s+(test\w+)\s*\([^)]*\)". *)
Definition swift_names_pattern : regex :=
  seq [ Opt (seq [Lit $"public"; Plus is_space]);
        Lit $"func"; Plus is_space;
        Group 1 (seq [Lit $"test"; Plus is_word]);
        Star is_space;
        Lit $"("; Star (is_not ")"); Lit $")" ].

(** The C# pattern of [extract_test_methods]: the attribute, optional
    "public", optional "async", a return type "Task", "void" or
    "IEnumerator" followed by white space, and as group 1 a name of word
    characters that contains "Test". *)
Definition csharp_names_pattern : regex :=
  seq [ Lit $"["; Alt (Lit $"Test") (Lit $"UnityTest"); Star (is_not "]"); Lit $"]";
        Star is_space;
        Opt (seq [Lit $"public"; Plus is_space]);
        Opt (seq [Lit $"async"; Plus is_space]);
        Alt (seq [Lit $"Task"; Plus is_space])
            (Alt (seq [Lit $"void"; Plus is_space])
                 (seq [Lit $"IEnumerator"; Plus is_space]));
        Group 1 (seq [Star is_word; Lit $"Test"; Star is_word]) ].

(** [re.findall] for a pattern with one group: group 1 of every match. *)
Definition findall (r : regex) (content : str) : list str :=
  map (fun m => group 1 (m_groups m)) (finditer r content).

(** [extract_test_methods]; the [except] branch returns the empty list. *)
Definition extract_test_methods (file : outcome str) (is_swift : bool) : list str :=
  match file with
  | Raised => []
  | Returned content =>
      let pattern := if is_swift then swift_names_pattern else csharp_names_pattern in
      filter (fun m => startswith (lower m) $"test") (findall pattern content)
  end.

Definition swift_helpers : list str := [$"json"; $"mock"; $"testproperties"].
Definition csharp_helpers : list str := [$"mock"; $"helper"; $"testsuiterunner"].

(** [any(helper in test_file.name.lower() for helper in helpers)] *)
Definition is_helper (helpers : list str) (relative_path : str) : bool :=
  existsb (fun helper => contains (lower (path_name relative_path)) helper) helpers.

(** The body of the loop over the files a directory walk visits, each
    given by its relative path and the outcome of reading it. *)
Definition analyze_file (helpers : list str) (is_swift : bool)
    (d : tests) (file : str * outcome str) : tests :=
  if is_helper helpers (fst file) then d
  else record_tests d (fst file, extract_test_methods (snd file) is_swift).

Definition analyze_swift_tests (d : tests) (visited : list (str * outcome str)) : tests :=
  fold_left (analyze_file swift_helpers true) visited d.

Definition analyze_csharp_tests (d : tests) (visited : list (str * outcome str)) : tests :=
  fold_left (analyze_file csharp_helpers false) visited d.

(** What the walks keep true of the stored dictionary. *)
Definition stored_well (helpers : list str) (d : tests) : Prop :=
  NoDup (keys d) /\
  Forall (fun item : str * list str =>
            snd item <> [] /\
            is_helper helpers (fst item) = false /\
            Forall (fun m => startswith (lower m) $"test" = true) (snd item)) d.

(** [len(missing_categories) + len(missing_files)] *)
Definition total_missing (mc : missing_coverage) : nat :=
  length (missing_categories mc) + length (missing_files mc).

Inductive verdict := VERDICT_COMPLETE | VERDICT_SUBSTANTIAL | VERDICT_INSUFFICIENT.

(** The final verdict of [generate_comprehensive_report]. *)
Definition final_verdict (swift_tests csharp_tests : tests) : verdict :=
  let coverage_percentage := final_coverage_percentage swift_tests csharp_tests in
  let total_missing := total_missing (find_missing_coverage swift_tests csharp_tests) in
  if number_geb coverage_percentage 100 && (total_missing =? 0) then VERDICT_COMPLETE
  else if number_geb coverage_percentage 80 then VERDICT_SUBSTANTIAL
  else VERDICT_INSUFFICIENT.

End CoverageReport.

(** * Properties *)

(** ** Strings *)

Lemma str_eqb_eq (a b : str) : str_eqb a b = true <-> a = b.
Proof.
  revert b; induction a as [|x a IH]; intros [|y b]; simpl; split;
    try congruence; try reflexivity.
  - intros H. apply andb_true_iff in H as [Hx Hr].
    apply Ascii.eqb_eq in Hx. apply IH in Hr. congruence.
  - intros H. injection H as -> ->.
    rewrite Ascii.eqb_refl. simpl. now apply IH.
Qed.

Lemma str_eqb_refl (a : str) : str_eqb a a = true.
Proof. now apply str_eqb_eq. Qed.

Lemma str_eqb_neq (a b : str) : str_eqb a b = false <-> a <> b.
Proof.
  rewrite <- str_eqb_eq. destruct (str_eqb a b); split; congruence.
Qed.

Lemma startswith_app (s p : str) :
  startswith s p = true <-> exists post, s = p ++ post.
Proof.
  revert s; induction p as [|y p IH]; intros s; simpl.
  - split; [intros _; now exists s | intros _; reflexivity].
  - destruct s as [|x s].
    + split; [discriminate | intros [post H]; discriminate].
    + rewrite andb_true_iff, Ascii.eqb_eq, IH. split.
      * intros [-> [post ->]]. now exists post.
      * intros [post H]. injection H as -> ->. split; [reflexivity | now exists post].
Qed.

Lemma endswith_app (s p : str) :
  endswith s p = true <-> exists pre, s = pre ++ p.
Proof.
  unfold endswith. rewrite str_eqb_eq. split.
  - intros H. exists (firstn (length s - length p) s).
    transitivity (firstn (length s - length p) s ++ skipn (length s - length p) s).
    + symmetry. apply firstn_skipn.
    + now rewrite H.
  - intros [pre ->]. rewrite length_app.
    replace (length pre + length p - length p) with (length pre + 0) by lia.
    rewrite skipn_app, Nat.add_0_r, skipn_all.
    replace (length pre - length pre) with 0 by lia. reflexivity.
Qed.

Lemma contains_substring (hay needle : str) :
  contains hay needle = true <-> substring needle hay.
Proof.
  unfold substring. induction hay as [|c hay IH]; simpl.
  - rewrite orb_false_r, startswith_app. split.
    + intros [post H]. now exists [], post.
    + intros [pre [post H]]. destruct pre; [now exists post|discriminate].
  - rewrite orb_true_iff, startswith_app, IH. split.
    + intros [[post H] | [pre [post H]]].
      * now exists [], post.
      * exists (c :: pre), post. simpl. now rewrite H.
    + intros [[|x pre] [post H]].
      * left. now exists post.
      * right. injection H as -> ->. now exists pre, post.
Qed.

Lemma join_split_filter (sep : ascii) (s : str) :
  join_empty (split sep s) = filter (fun c => negb (Ascii.eqb c sep)) s.
Proof.
  unfold join_empty. induction s as [|c s IH]; [reflexivity|]. simpl.
  destruct (Ascii.eqb c sep); simpl; [exact IH|].
  destruct (split sep s) as [|piece pieces]; simpl in *; now rewrite <- IH.
Qed.

Lemma startswith_substring (s p : str) : startswith s p = true -> substring p s.
Proof. intros H. apply startswith_app in H as [post ->]. now exists [], post. Qed.

Lemma substring_cons (c : ascii) (needle hay : str) :
  substring needle hay -> substring needle (c :: hay).
Proof. intros [pre [post ->]]. now exists (c :: pre), post. Qed.

Lemma startswith_shorter (x y p : str) :
  startswith (x ++ y) p = true -> length p <= length x -> startswith x p = true.
Proof.
  revert x. induction p as [|c p IH]; intros x H L; [reflexivity|].
  destruct x as [|a x]; simpl in L; [lia|]. simpl in *.
  apply andb_true_iff in H as [Ha H]. rewrite Ha. simpl. apply IH; [assumption|lia].
Qed.

(** *** [replace] *)

Section Replace.
Variables old new : str.

Lemma replace_skip (a s : str) :
  replace_from old new (a ++ s) (length a) = replace_from old new s 0.
Proof. induction a as [|x a IH]; [reflexivity | exact IH]. Qed.

Lemma replace_hit (post : str) :
  old <> [] -> replace old new (old ++ post) = new ++ replace old new post.
Proof.
  intros Hne. unfold replace. destruct old as [|o old'] eqn:E; [congruence|].
  cbn [app replace_from].
  replace (startswith (o :: old' ++ post) (o :: old')) with true.
  - replace (length (o :: old') - 1) with (length old') by (simpl; lia).
    rewrite <- E. f_equal. apply replace_skip.
  - symmetry. apply (startswith_app (o :: old' ++ post) (o :: old')). now exists post.
Qed.

Lemma replace_miss (c : ascii) (s : str) :
  startswith (c :: s) old = false ->
  replace old new (c :: s) = c :: replace old new s.
Proof. intros H. unfold replace. cbn [replace_from]. now rewrite H. Qed.

(** A text without an occurrence is left as it is. *)
Lemma replace_absent (s : str) : ~ substring old s -> replace old new s = s.
Proof.
  induction s as [|c s IH]; intros H; [reflexivity|].
  rewrite replace_miss.
  - f_equal. apply IH. intros K. apply H. now apply substring_cons.
  - destruct (startswith (c :: s) old) eqn:E; [|reflexivity].
    exfalso. apply H. now apply startswith_substring.
Qed.
End Replace.

(** The first occurrence is replaced and the text after it treated in the
    same way: [old] is [init ++ [z]], and no occurrence starts before
    [pre] ends. *)
Lemma replace_first (init : str) (z : ascii) (new pre post : str) :
  ~ substring (init ++ [z]) (pre ++ init) ->
  replace (init ++ [z]) new (pre ++ (init ++ [z]) ++ post)
  = pre ++ new ++ replace (init ++ [z]) new post.
Proof.
  induction pre as [|c pre IH]; intros H.
  - simpl. apply replace_hit. now destruct init.
  - simpl. rewrite replace_miss.
    + f_equal. apply IH. intros K. apply H. simpl. now apply substring_cons.
    + destruct (startswith (c :: pre ++ (init ++ [z]) ++ post) (init ++ [z])) eqn:E;
        [|reflexivity].
      exfalso. apply H. apply startswith_substring.
      apply (startswith_shorter ((c :: pre) ++ init) ([z] ++ post)).
      * simpl. rewrite <- !app_assoc. simpl. rewrite <- !app_assoc in E. exact E.
      * rewrite !length_app. simpl. lia.
Qed.

Lemma lower_char_idem (c : ascii) : lower_char (lower_char c) = lower_char c.
Proof. destruct c as [[] [] [] [] [] [] [] []]; vm_compute; reflexivity. Qed.

Lemma lower_idem (s : str) : lower (lower s) = lower s.
Proof.
  unfold lower. rewrite map_map. apply map_ext. intros; apply lower_char_idem.
Qed.

(** ** The matcher *)

Import Mapping.

Lemma is_exact_iff (n : str) (c : csharp_method) :
  is_exact n c = true <-> Exact n c.
Proof. unfold is_exact, Exact. apply str_eqb_eq. Qed.

Lemma is_partial_iff (n : str) (c : csharp_method) :
  is_partial n c = true <-> Partial n c.
Proof.
  unfold is_partial, Partial.
  now rewrite orb_true_iff, !contains_substring.
Qed.

Section FirstHit.
Variable test : csharp_method -> bool.
Variable P : csharp_method -> Prop.
Hypothesis test_iff : forall c, test c = true <-> P c.

Lemma test_false (c : csharp_method) : test c = false <-> ~ P c.
Proof.
  rewrite <- test_iff. destruct (test c); split; congruence.
Qed.

Lemma first_hit_Some (l : list csharp_method) (c : csharp_method) :
  first_hit test l = Some c <-> first_such P c l.
Proof.
  unfold first_such. induction l as [|x l IH]; simpl.
  - split; [discriminate|]. intros [[|? ?] [after [H _]]]; discriminate.
  - destruct (test x) eqn:Hx.
    + split.
      * intros [= ->]. exists [], l. repeat split; [now apply test_iff | constructor].
      * intros [[|y before] [after [H [Hc Hb]]]].
        -- now injection H as ->.
        -- injection H as -> ->. inversion Hb; subst.
           apply test_iff in Hx. contradiction.
    + rewrite IH. split.
      * intros [before [after [-> [Hc Hb]]]].
        exists (x :: before), after. repeat split; trivial.
        constructor; [now apply test_false | assumption].
      * intros [[|y before] [after [H [Hc Hb]]]].
        -- injection H as -> ->. apply test_iff in Hc. congruence.
        -- injection H as -> ->. inversion Hb; subst.
           now exists before, after.
Qed.

Lemma first_hit_None (l : list csharp_method) :
  first_hit test l = None <-> Forall (fun x => ~ P x) l.
Proof.
  induction l as [|x l IH]; simpl.
  - split; [constructor | reflexivity].
  - destruct (test x) eqn:Hx.
    + split; [discriminate|]. intros H; inversion H; subst.
      apply test_iff in Hx. contradiction.
    + rewrite IH. split.
      * intros H. constructor; [now apply test_false | assumption].
      * intros H; now inversion H.
Qed.
End FirstHit.

(** C1.  The matcher runs two passes over the candidates, each in list
    order.  It answers EXACT with a candidate exactly when that candidate
    is the first one whose normalized name equals the normalized reference
    name; it answers PARTIAL with a candidate exactly when no candidate
    is EXACT and that candidate is the first one whose normalized name
    contains, or is contained in, the normalized reference name; it
    answers nothing exactly when no candidate passes either test.  For
    the reference [testTransferAsync] and the candidates
    [TestTransferAsync], [TestTransferFailsAsync] the answer is EXACT
    with the first candidate. *)
Theorem C1_two_tiers_first_hit
    (swift_method : swift_method) (csharp_methods : list csharp_method) :
  let n := normalize_test_name (sw_name swift_method) in
  (forall c,
      find_matching_c_sharp_method swift_method csharp_methods
        = Some (mk_match exact c)
      <-> first_such (Exact n) c csharp_methods) /\
  (forall c,
      find_matching_c_sharp_method swift_method csharp_methods
        = Some (mk_match partial c)
      <-> Forall (fun x => ~ Exact n x) csharp_methods /\
          first_such (Partial n) c csharp_methods) /\
  (find_matching_c_sharp_method swift_method csharp_methods = None
      <-> Forall (fun x => ~ Exact n x /\ ~ Partial n x) csharp_methods) /\
  (forall c1 c2,
      sw_name swift_method = $"testTransferAsync" ->
      cs_name c1 = $"TestTransferAsync" ->
      cs_name c2 = $"TestTransferFailsAsync" ->
      find_matching_c_sharp_method swift_method [c1; c2]
        = Some (mk_match exact c1)).
Proof.
  intros n. unfold find_matching_c_sharp_method. fold n.
  pose proof (first_hit_Some _ _ (is_exact_iff n) csharp_methods) as HE.
  pose proof (first_hit_None _ _ (is_exact_iff n) csharp_methods) as HEn.
  pose proof (first_hit_Some _ _ (is_partial_iff n) csharp_methods) as HP.
  pose proof (first_hit_None _ _ (is_partial_iff n) csharp_methods) as HPn.
  split; [|split; [|split]].
  - intros c. split.
    + destruct (first_hit (is_exact n) csharp_methods) as [e|] eqn:E.
      * intros [= ->]. now apply HE.
      * destruct (first_hit (is_partial n) csharp_methods); discriminate.
    + intros H. apply HE in H. now rewrite H.
  - intros c. split.
    + destruct (first_hit (is_exact n) csharp_methods) eqn:E; [discriminate|].
      destruct (first_hit (is_partial n) csharp_methods) eqn:E'; [|discriminate].
      intros [= ->]. split; [now apply HEn | now apply HP].
    + intros [HnoE Hfirst]. apply HEn in HnoE. apply HP in Hfirst.
      now rewrite HnoE, Hfirst.
  - split.
    + destruct (first_hit (is_exact n) csharp_methods) eqn:E; [discriminate|].
      destruct (first_hit (is_partial n) csharp_methods) eqn:E'; [discriminate|].
      intros _. apply Forall_forall. intros x Hx.
      assert (HE0 : Forall (fun x => ~ Exact n x) csharp_methods) by now apply HEn.
      assert (HP0 : Forall (fun x => ~ Partial n x) csharp_methods) by now apply HPn.
      rewrite Forall_forall in HE0, HP0. split; auto.
    + intros H.
      assert (HE0 : Forall (fun x => ~ Exact n x) csharp_methods).
      { eapply Forall_impl; [|exact H]. now intros a [? _]. }
      assert (HP0 : Forall (fun x => ~ Partial n x) csharp_methods).
      { eapply Forall_impl; [|exact H]. now intros a [_ ?]. }
      apply HEn in HE0. apply HPn in HP0. now rewrite HE0, HP0.
  - intros c1 c2 Hs H1 H2. cbn [first_hit].
    replace (is_exact n c1) with true; [reflexivity|].
    subst n. unfold is_exact. rewrite Hs, H1. now vm_compute.
Qed.

Lemma C1_two_tiers_first_hit_witness :
  let s := mk_swift $"testTransferAsync" 1 1 true true false false in
  let c1 := mk_csharp $"TestTransferAsync" 1 $"Task" 1 true false true false false false in
  let c2 := mk_csharp $"TestTransferFailsAsync" 9 $"Task" 1 true false true false false true in
  find_matching_c_sharp_method s [c1; c2] = Some (mk_match exact c1).
Proof.
  intros s c1 c2.
  destruct (C1_two_tiers_first_hit s [c1; c2]) as [_ [_ [_ H]]].
  apply H; reflexivity.
Defined.

(** ** The normalizer *)

Lemma firstn_app_exact {A} (pre suf : list A) :
  firstn (length (pre ++ suf) - length suf) (pre ++ suf) = pre.
Proof.
  rewrite length_app.
  replace (length pre + length suf - length suf) with (length pre) by lia.
  rewrite firstn_app, firstn_all, Nat.sub_diag. simpl. apply app_nil_r.
Qed.

Lemma strip_suffix_true (name suffix : str) :
  endswith name suffix = true -> name = strip_suffix name suffix ++ suffix.
Proof.
  intros H. unfold strip_suffix. rewrite H.
  apply endswith_app in H as [pre ->]. now rewrite firstn_app_exact.
Qed.

Lemma strip_suffix_false (name suffix : str) :
  endswith name suffix = false -> strip_suffix name suffix = name.
Proof. intros H. unfold strip_suffix. now rewrite H. Qed.

Lemma strip_suffix_dropped (name suffix : str) :
  name = strip_suffix name suffix ++ dropped name suffix.
Proof.
  unfold dropped. destruct (endswith name suffix) eqn:E.
  - now apply strip_suffix_true.
  - rewrite strip_suffix_false by assumption. now rewrite app_nil_r.
Qed.

Lemma strip_suffix_length (name suffix : str) :
  length (strip_suffix name suffix) + length (dropped name suffix) = length name.
Proof.
  rewrite (strip_suffix_dropped name suffix) at 3. now rewrite length_app.
Qed.

Lemma strip_suffix_In (name suffix : str) (c : ascii) :
  In c (strip_suffix name suffix) -> In c name.
Proof.
  intros H. rewrite (strip_suffix_dropped name suffix).
  apply in_or_app. now left.
Qed.

Lemma endswith_In (s p : str) (c : ascii) :
  endswith s p = true -> In c p -> In c s.
Proof.
  intros H Hc. apply endswith_app in H as [pre ->].
  apply in_or_app. now right.
Qed.

Lemma normalize_unfold (name : str) :
  normalize_test_name name =
  let stripped := if startswith (lower name) $"test" then skipn 4 (lower name)
                  else lower name in
  filter no_underscore
    (strip_suffix
       (strip_suffix
          (strip_suffix (strip_suffix stripped $"_test") $"test") $"_tests")
       $"tests").
Proof. unfold normalize_test_name. now rewrite join_split_filter. Qed.

(** C2.  After lower-casing and dropping a leading "test", the four
    suffixes are tried once each, in the order "_test", "test", "_tests",
    "tests", each against what the earlier steps left, and every one that
    matches is dropped; then the underscores are removed.  So the text
    after the prefix step is [core ++ d4 ++ d3 ++ d2 ++ d1], where [d1] is
    "_test" or empty, [d2] is "test" or empty, [d3] is "_tests" or empty
    and [d4] is "tests" or empty, each non-empty exactly when the text
    left at that step ends with it, and the result is [core] without
    underscores.  More than one suffix can go ("foo_tests_test" gives
    "foo", and all four go in "atests_teststest_test"); the pass is not
    repeated ("xtesttest" gives "xtest"). *)
Theorem C2_each_matching_suffix_dropped_once (name : str) :
  (let stripped := if startswith (lower name) $"test" then skipn 4 (lower name)
                   else lower name in
   exists core d4 d3 d2 d1,
     stripped = core ++ d4 ++ d3 ++ d2 ++ d1 /\
     d1 = dropped stripped $"_test" /\
     d2 = dropped (core ++ d4 ++ d3 ++ d2) $"test" /\
     d3 = dropped (core ++ d4 ++ d3) $"_tests" /\
     d4 = dropped (core ++ d4) $"tests" /\
     normalize_test_name name = filter no_underscore core) /\
  normalize_test_name $"foo_tests_test" = $"foo" /\
  normalize_test_name $"atests_teststest_test" = $"a" /\
  normalize_test_name $"xtesttest" = $"xtest".
Proof.
  split; [|now vm_compute].
  intros stripped.
  set (s1 := strip_suffix stripped $"_test").
  set (s2 := strip_suffix s1 $"test").
  set (s3 := strip_suffix s2 $"_tests").
  set (s4 := strip_suffix s3 $"tests").
  pose proof (strip_suffix_dropped stripped $"_test") as E1. fold s1 in E1.
  pose proof (strip_suffix_dropped s1 $"test") as E2. fold s2 in E2.
  pose proof (strip_suffix_dropped s2 $"_tests") as E3. fold s3 in E3.
  pose proof (strip_suffix_dropped s3 $"tests") as E4. fold s4 in E4.
  exists s4, (dropped s3 $"tests"), (dropped s2 $"_tests"),
         (dropped s1 $"test"), (dropped stripped $"_test").
  rewrite <- E4.
  assert (Es2 : s4 ++ dropped s3 $"tests" ++ dropped s2 $"_tests" = s2).
  { rewrite app_assoc, <- E4. now symmetry. }
  assert (Es1 : s4 ++ dropped s3 $"tests" ++ dropped s2 $"_tests"
                   ++ dropped s1 $"test" = s1).
  { rewrite E2 at 2. rewrite <- Es2 at 2. now rewrite <- !app_assoc. }
  repeat split.
  - rewrite E1 at 1. rewrite <- Es1 at 1. now rewrite <- !app_assoc.
  - now rewrite Es1.
  - now rewrite Es2.
  - rewrite normalize_unfold. reflexivity.
Qed.

(** C2, as the specification words it: on "foo_tests_test" the rule that drops only
    the first matching suffix would leave "footests", the code gives
    "foo". *)
Lemma C2_first_suffix_only_fails :
  spec_normalize $"foo_tests_test" = $"footests" /\
  normalize_test_name $"foo_tests_test" <> spec_normalize $"foo_tests_test".
Proof. split; [now vm_compute | vm_compute; discriminate]. Qed.

Lemma strip_suffix_le (name suffix : str) :
  length (strip_suffix name suffix) <= length name.
Proof. pose proof (strip_suffix_length name suffix). lia. Qed.

Lemma strip_suffix_lt (name suffix : str) :
  endswith name suffix = true -> suffix <> [] ->
  length (strip_suffix name suffix) < length name.
Proof.
  intros H Hne. pose proof (strip_suffix_length name suffix) as L.
  unfold dropped in L. rewrite H in L.
  destruct suffix; [contradiction|]. simpl in L. lia.
Qed.

Lemma filter_length_le {A} (f : A -> bool) (l : list A) :
  length (filter f l) <= length l.
Proof.
  induction l as [|x l IH]; simpl; [lia|]. destruct (f x); simpl; lia.
Qed.

Lemma filter_all {A} (f : A -> bool) (l : list A) :
  (forall x, In x l -> f x = true) -> filter f l = l.
Proof.
  induction l as [|x l IH]; simpl; intros H; [reflexivity|].
  rewrite (H x) by now left. f_equal. apply IH. intros y Hy. apply H. now right.
Qed.

Lemma skipn_In {A} (n : nat) (l : list A) (x : A) : In x (skipn n l) -> In x l.
Proof.
  intros H. rewrite <- (firstn_skipn n l). apply in_or_app. now right.
Qed.

(** The characters of a normalized name are characters of the lower-cased
    input, and none is an underscore. *)
Lemma normalize_In (name : str) (c : ascii) :
  In c (normalize_test_name name) -> In c (lower name) /\ no_underscore c = true.
Proof.
  rewrite normalize_unfold. cbv zeta. intros H.
  apply filter_In in H as [H Hc]. split; [|assumption].
  do 4 apply strip_suffix_In in H.
  destruct (startswith (lower name) $"test"); [now apply skipn_In in H | assumption].
Qed.

Lemma normalize_lower (name : str) :
  lower (normalize_test_name name) = normalize_test_name name.
Proof.
  unfold lower. rewrite <- (map_id (normalize_test_name name)) at 2.
  apply map_ext_in. intros c Hc. apply normalize_In in Hc as [Hc _].
  unfold lower in Hc. apply in_map_iff in Hc as [c0 [<- _]].
  apply lower_char_idem.
Qed.

Lemma no_underscore_endswith (m suffix : str) :
  (forall c, In c m -> no_underscore c = true) ->
  In "_"%char suffix -> endswith m suffix = false.
Proof.
  intros Hm Hs. destruct (endswith m suffix) eqn:E; [|reflexivity].
  pose proof (endswith_In _ _ _ E Hs) as Hin. apply Hm in Hin. discriminate.
Qed.

(** The names on which the normalizer changes nothing. *)
Lemma normalize_fixed (m : str) :
  lower m = m ->
  (forall c, In c m -> no_underscore c = true) ->
  (normalize_test_name m = m <->
   startswith m $"test" = false /\
   endswith m $"test" = false /\ endswith m $"tests" = false).
Proof.
  intros Hlow Hnu. rewrite normalize_unfold, Hlow. cbv zeta.
  assert (U1 : endswith m $"_test" = false).
  { apply no_underscore_endswith; [assumption|]. simpl. tauto. }
  assert (U2 : endswith m $"_tests" = false).
  { apply no_underscore_endswith; [assumption|]. simpl. tauto. }
  split.
  - intros Heq.
    assert (Hlen : forall x,
               length (filter no_underscore
                 (strip_suffix (strip_suffix (strip_suffix (strip_suffix x
                    $"_test") $"test") $"_tests") $"tests")) <= length x).
    { intros x. etransitivity; [apply filter_length_le|].
      repeat (etransitivity; [apply strip_suffix_le|]). reflexivity. }
    destruct (startswith m $"test") eqn:P.
    { exfalso. apply startswith_app in P as [post P].
      pose proof (Hlen (skipn 4 m)) as L. rewrite Heq in L.
      rewrite length_skipn in L.
      apply (f_equal (@length ascii)) in P. simpl in P. lia. }
    split; [reflexivity|].
    rewrite (strip_suffix_false m $"_test") in Heq by assumption.
    destruct (endswith m $"test") eqn:S1.
    { exfalso.
      pose proof (strip_suffix_lt m $"test" S1 ltac:(discriminate)) as L1.
      pose proof (filter_length_le no_underscore
                    (strip_suffix (strip_suffix (strip_suffix m $"test")
                       $"_tests") $"tests")) as L2.
      pose proof (strip_suffix_le (strip_suffix (strip_suffix m $"test")
                       $"_tests") $"tests") as L3.
      pose proof (strip_suffix_le (strip_suffix m $"test") $"_tests") as L4.
      rewrite Heq in L2. lia. }
    split; [reflexivity|].
    rewrite (strip_suffix_false m $"test") in Heq by assumption.
    rewrite (strip_suffix_false m $"_tests") in Heq by assumption.
    destruct (endswith m $"tests") eqn:S2; [|reflexivity].
    exfalso.
    pose proof (strip_suffix_lt m $"tests" S2 ltac:(discriminate)) as L1.
    pose proof (filter_length_le no_underscore (strip_suffix m $"tests")) as L2.
    rewrite Heq in L2. lia.
  - intros [P [S1 S2]]. rewrite P.
    rewrite (strip_suffix_false m $"_test") by assumption.
    rewrite (strip_suffix_false m $"test") by assumption.
    rewrite (strip_suffix_false m $"_tests") by assumption.
    rewrite (strip_suffix_false m $"tests") by assumption.
    now apply filter_all.
Qed.

(** C3.  Normalizing twice gives the same as normalizing once exactly for
    the names whose normalized form neither starts with "test" nor ends
    with "test" or "tests": the prefix and the suffixes are taken off once,
    so what one pass uncovers is taken off by the next. *)
Theorem C3_idempotent_iff_nothing_left_to_strip (n : str) :
  normalize_test_name (normalize_test_name n) = normalize_test_name n <->
  startswith (normalize_test_name n) $"test" = false /\
  endswith (normalize_test_name n) $"test" = false /\
  endswith (normalize_test_name n) $"tests" = false.
Proof.
  apply normalize_fixed.
  - apply normalize_lower.
  - intros c Hc. now apply normalize_In in Hc.
Qed.

(** C3, as the specification words it: "testtestfoo" normalizes to "testfoo", and
    that to "foo". *)
Lemma C3_not_idempotent :
  normalize_test_name (normalize_test_name $"testtestfoo")
  <> normalize_test_name $"testtestfoo".
Proof. vm_compute. discriminate. Qed.

Lemma normalize_of_lower (n l : str) :
  lower n = l -> normalize_test_name n = normalize_test_name l.
Proof.
  intros <-. unfold normalize_test_name. now rewrite lower_idem.
Qed.

Lemma first_hit_In (test : csharp_method -> bool) (l : list csharp_method)
    (c : csharp_method) :
  In c l -> test c = true ->
  exists c', first_hit test l = Some c' /\ test c' = true.
Proof.
  induction l as [|x l IH]; simpl; [contradiction|].
  intros [-> | Hin] Hc.
  - rewrite Hc. now exists c.
  - destruct (test x) eqn:Hx; [now exists x | now apply IH].
Qed.

(** C5.  A name that is "test" in any letter case normalizes to the empty
    string; a name that is "tests" in any letter case normalizes to "s",
    because the leading "test" goes first and "s" has no suffix to drop.
    Names that normalize to the same string, the empty one included, are
    an EXACT match by string equality: a reference whose normalized name
    is empty is matched EXACT to a candidate with an empty normalized
    name as soon as the list has one, and to the head of the list when
    the head is one. *)
Theorem C5_empty_names_match_exact :
  (forall n, lower n = $"test" -> normalize_test_name n = []) /\
  (forall n, lower n = $"tests" -> normalize_test_name n = $"s") /\
  (forall swift_method csharp_methods c,
      normalize_test_name (sw_name swift_method) = [] ->
      In c csharp_methods ->
      normalize_test_name (cs_name c) = [] ->
      exists c',
        find_matching_c_sharp_method swift_method csharp_methods
          = Some (mk_match exact c') /\
        normalize_test_name (cs_name c') = []) /\
  (forall swift_method c rest,
      normalize_test_name (sw_name swift_method) = [] ->
      normalize_test_name (cs_name c) = [] ->
      find_matching_c_sharp_method swift_method (c :: rest)
        = Some (mk_match exact c)).
Proof.
  split; [|split; [|split]].
  - intros n H. now rewrite (normalize_of_lower n _ H).
  - intros n H. now rewrite (normalize_of_lower n _ H).
  - intros sw cs c Hs Hin Hc. unfold find_matching_c_sharp_method. rewrite Hs.
    destruct (first_hit_In (is_exact []) cs c Hin) as [c' [E T]].
    { unfold is_exact. now rewrite Hc. }
    rewrite E. exists c'. split; [reflexivity|].
    unfold is_exact in T. apply str_eqb_eq in T. now symmetry.
  - intros sw c rest Hs Hc. unfold find_matching_c_sharp_method. rewrite Hs.
    cbn [first_hit]. unfold is_exact at 1. rewrite Hc. reflexivity.
Qed.

Lemma C5_empty_names_match_exact_witness :
  normalize_test_name $"TeSt" = [] /\ normalize_test_name $"TESTS" = $"s".
Proof.
  destruct C5_empty_names_match_exact as [H1 [H2 _]].
  split; [apply H1 | apply H2]; vm_compute; reflexivity.
Defined.

(** C5, as the specification words it: "tests" does not normalize to the empty
    string. *)
Lemma C5_tests_is_not_empty : normalize_test_name $"tests" <> [].
Proof. vm_compute. discriminate. Qed.

(** ** The file-pair analyzer *)

Lemma set_mem_In (name : str) (s : list str) : set_mem name s = true <-> In name s.
Proof.
  unfold set_mem. destruct (in_dec str_eq_dec name s); split; congruence.
Qed.

Lemma set_add_In (name x : str) (s : list str) :
  In x (set_add name s) <-> In x s \/ x = name.
Proof.
  unfold set_add. destruct (in_dec str_eq_dec name s) as [Hin|Hin].
  - split; [now left | intros [H | ->]; assumption].
  - rewrite in_app_iff. simpl. intuition congruence.
Qed.

(** The matching loop, from any state it is started in. *)
Lemma match_loop_from (csharp_methods : list csharp_method)
    (swift_methods : list swift_method) (st : loop_state) :
  let st' := fold_left (match_step csharp_methods) swift_methods st in
  ls_matched st' = ls_matched st ++ flat_map (matched_of csharp_methods) swift_methods /\
  ls_unmatched st' =
    ls_unmatched st ++ filter (fun s => negb (has_match csharp_methods s)) swift_methods /\
  (forall n, In n (ls_matched_cs_methods st') <->
             In n (ls_matched_cs_methods st) \/
             In n (claimed_names (flat_map (matched_of csharp_methods) swift_methods))).
Proof.
  revert st. induction swift_methods as [|s l IH]; intros st; cbn zeta.
  - simpl. rewrite !app_nil_r. repeat split; tauto.
  - simpl fold_left. destruct (IH (match_step csharp_methods st s)) as [M [U N]].
    cbn zeta in M, U, N. rewrite M, U. clear M U.
    unfold match_step, matched_of, has_match in *. simpl flat_map. simpl filter.
    destruct (find_matching_c_sharp_method s csharp_methods) as [m|]; simpl.
    + rewrite <- !app_assoc. repeat split; trivial.
      * intros H. apply N in H. simpl in H. rewrite set_add_In in H.
        unfold claimed_names. simpl. intuition congruence.
      * intros H. apply N. simpl. rewrite set_add_In.
        unfold claimed_names in H. simpl in H. intuition congruence.
    + rewrite <- !app_assoc. repeat split; trivial; intros H; now apply N.
Qed.

Lemma match_loop_closed (csharp_methods : list csharp_method)
    (swift_methods : list swift_method) :
  let st := match_loop swift_methods csharp_methods in
  ls_matched st = flat_map (matched_of csharp_methods) swift_methods /\
  ls_unmatched st = filter (fun s => negb (has_match csharp_methods s)) swift_methods /\
  (forall n, In n (ls_matched_cs_methods st) <-> In n (claimed_names (ls_matched st))).
Proof.
  destruct (match_loop_from csharp_methods swift_methods (mk_loop [] [] []))
    as [M [U N]].
  cbn zeta in *. unfold match_loop. simpl in M, U, N.
  rewrite M, U. repeat split; trivial; intros H.
  - apply N in H. tauto.
  - apply N. now right.
Qed.

Lemma matched_of_swift (cs : list csharp_method) (l : list swift_method) :
  map me_swift (flat_map (matched_of cs) l) = filter (has_match cs) l.
Proof.
  induction l as [|s l IH]; [reflexivity|]. simpl.
  rewrite map_app, IH. unfold matched_of, has_match.
  now destruct (find_matching_c_sharp_method s cs).
Qed.

Lemma matched_of_answer (cs : list csharp_method) (l : list swift_method) :
  Forall (fun e => find_matching_c_sharp_method (me_swift e) cs
                   = Some (mk_match (me_match_type e) (me_csharp e)))
         (flat_map (matched_of cs) l).
Proof.
  induction l as [|s l IH]; [constructor|]. simpl.
  apply Forall_app. split; [|assumption].
  unfold matched_of. destruct (find_matching_c_sharp_method s cs) as [[t c]|] eqn:E.
  - constructor; [|constructor]. exact E.
  - constructor.
Qed.

Lemma filter_partition_length {A} (f : A -> bool) (l : list A) :
  length (filter f l) + length (filter (fun x => negb (f x)) l) = length l.
Proof.
  induction l as [|x l IH]; [reflexivity|]. simpl.
  destruct (f x); simpl; lia.
Qed.

(** C4.  Each reference method yields at most one match result: taken in
    order, the reference methods of the results are the reference methods
    that have a match, the unmatched list holds the others, and the two
    lists together are as long as the reference list.  Every result is
    the matcher's answer on the whole target list; targets claimed
    earlier stay in it, so nothing keeps two reference methods from
    being paired with the same target. *)
Theorem C4_one_result_per_reference
    (swift_file csharp_file : str)
    (swift_methods : list swift_method) (csharp_methods : list csharp_method) :
  let a := analyze_file_pair swift_file csharp_file swift_methods csharp_methods in
  map me_swift (matched_methods a) = filter (has_match csharp_methods) swift_methods /\
  unmatched_swift a
    = filter (fun s => negb (has_match csharp_methods s)) swift_methods /\
  length (matched_methods a) + length (unmatched_swift a) = length swift_methods /\
  Forall (fun e => find_matching_c_sharp_method (me_swift e) csharp_methods
                   = Some (mk_match (me_match_type e) (me_csharp e)))
         (matched_methods a).
Proof.
  destruct (match_loop_closed csharp_methods swift_methods) as [M [U _]].
  cbn zeta in *. unfold analyze_file_pair. cbn [matched_methods unmatched_swift].
  rewrite M, U. split; [|split; [|split]].
  - apply matched_of_swift.
  - reflexivity.
  - rewrite <- (length_map me_swift), matched_of_swift.
    apply filter_partition_length.
  - apply matched_of_answer.
Qed.

(** C4, as the specification words it: the references [testA] and [testAB] are both
    paired with the only target [TestA], the first EXACT and the second
    PARTIAL. *)
Lemma C4_target_claimed_twice :
  let a := mk_swift $"testA" 1 1 false false false false in
  let b := mk_swift $"testAB" 2 1 false false false false in
  let t := mk_csharp $"TestA" 1 $"void" 1 false false false false false false in
  matched_methods (analyze_file_pair $"a.swift" $"a.cs" [a; b] [t])
  = [mk_matched a t exact; mk_matched b t partial] /\
  ~ NoDup (map me_csharp
             (matched_methods (analyze_file_pair $"a.swift" $"a.cs" [a; b] [t]))).
Proof.
  split; [now vm_compute|]. vm_compute. intros H. inversion H as [|x l Hx Hl]; subst.
  apply Hx. now left.
Qed.

(** C10.  The extra list is chosen by name: it is the target list, in
    order, without the records whose name is the name of a matched
    target.  So a target record is extra exactly when no matched target
    bears its name; two targets that share a name are both left out as
    soon as one of them is matched; and the matched targets and the extra
    ones can together be fewer than the targets, as for the reference
    [testA] against two targets named [TestA]. *)
Theorem C10_extra_by_name
    (swift_file csharp_file : str)
    (swift_methods : list swift_method) (csharp_methods : list csharp_method) :
  let a := analyze_file_pair swift_file csharp_file swift_methods csharp_methods in
  extra_csharp a
    = filter (fun c => negb (existsb (str_eqb (cs_name c))
                                     (claimed_names (matched_methods a))))
             csharp_methods /\
  (forall c, In c (extra_csharp a) <->
             In c csharp_methods /\
             ~ In (cs_name c) (claimed_names (matched_methods a))) /\
  (forall c1 c2,
      In c1 (map me_csharp (matched_methods a)) ->
      cs_name c2 = cs_name c1 ->
      ~ In c1 (extra_csharp a) /\ ~ In c2 (extra_csharp a)) /\
  (let s := mk_swift $"testA" 1 1 false false false false in
   let t1 := mk_csharp $"TestA" 1 $"void" 1 false false false false false false in
   let t2 := mk_csharp $"TestA" 5 $"void" 1 false false false false false false in
   let b := analyze_file_pair swift_file csharp_file [s] [t1; t2] in
   map me_csharp (matched_methods b) = [t1] /\ extra_csharp b = [] /\
   length (matched_methods b) + length (extra_csharp b) < length [t1; t2]).
Proof.
  destruct (match_loop_closed csharp_methods swift_methods) as [_ [_ N]].
  cbn zeta in *. unfold analyze_file_pair. cbn [matched_methods extra_csharp].
  set (st := match_loop swift_methods csharp_methods) in *.
  assert (Hmem : forall c,
             negb (set_mem (cs_name c) (ls_matched_cs_methods st)) = true <->
             ~ In (cs_name c) (claimed_names (ls_matched st))).
  { intros c. rewrite negb_true_iff, <- N, <- set_mem_In.
    destruct (set_mem (cs_name c) (ls_matched_cs_methods st)); split; congruence. }
  assert (Hin : forall c,
             In c (filter (fun c => negb (set_mem (cs_name c) (ls_matched_cs_methods st)))
                          csharp_methods) <->
             In c csharp_methods /\ ~ In (cs_name c) (claimed_names (ls_matched st))).
  { intros c. now rewrite filter_In, Hmem. }
  split; [|split; [|split]].
  - apply filter_ext. intros c.
    destruct (existsb (str_eqb (cs_name c)) (claimed_names (ls_matched st))) eqn:E.
    + apply existsb_exists in E as [x [Hx Ex]]. apply str_eqb_eq in Ex. subst x.
      apply N, set_mem_In in Hx. now rewrite Hx.
    + destruct (set_mem (cs_name c) (ls_matched_cs_methods st)) eqn:M; [|reflexivity].
      apply set_mem_In, N in M.
      assert (existsb (str_eqb (cs_name c)) (claimed_names (ls_matched st)) = true).
      { apply existsb_exists. exists (cs_name c). split; [assumption|apply str_eqb_refl]. }
      congruence.
  - exact Hin.
  - intros c1 c2 H1 H2.
    assert (Hn : In (cs_name c1) (claimed_names (ls_matched st))).
    { unfold claimed_names. apply in_map_iff in H1 as [e [<- He]].
      apply in_map_iff. now exists e. }
    split; intros H; apply Hin in H as [_ H]; apply H; congruence.
  - now vm_compute.
Qed.

Lemma C10_extra_by_name_witness :
  let s := mk_swift $"testA" 1 1 false false false false in
  let t1 := mk_csharp $"TestA" 1 $"void" 1 false false false false false false in
  let t2 := mk_csharp $"TestA" 5 $"void" 1 false false false false false false in
  let a := analyze_file_pair $"a.swift" $"a.cs" [s] [t1; t2] in
  ~ In t1 (extra_csharp a) /\ ~ In t2 (extra_csharp a).
Proof.
  intros s t1 t2 a.
  destruct (C10_extra_by_name $"a.swift" $"a.cs" [s] [t1; t2]) as [_ [_ [H _]]].
  apply (H t1 t2); [vm_compute; now left | reflexivity].
Defined.

(** ** Extraction *)

Lemma scan_braces_bounds (rest : str) (i : nat) (brace_count : Z) (e : nat) :
  scan_braces rest i brace_count = Some e -> i < e <= i + length rest.
Proof.
  revert i brace_count. induction rest as [|c rest IH]; intros i b; simpl.
  - discriminate.
  - destruct (Ascii.eqb c "{").
    + intros H. apply IH in H. lia.
    + destruct (Ascii.eqb c "}").
      * destruct (b - 1 =? 0)%Z.
        -- intros [= <-]. lia.
        -- intros H. apply IH in H. lia.
      * intros H. apply IH in H. lia.
Qed.

(** Without a closing brace the scan runs to the end of the text. *)
Lemma scan_braces_no_close (rest : str) (i : nat) (brace_count : Z) :
  ~ In "}"%char rest -> scan_braces rest i brace_count = None.
Proof.
  revert i brace_count. induction rest as [|c rest IH]; intros i b H; simpl.
  - reflexivity.
  - destruct (Ascii.eqb c "{"); [apply IH; intros K; apply H; now right|].
    destruct (Ascii.eqb c "}") eqn:E.
    + apply Ascii.eqb_eq in E. exfalso. apply H. now left.
    + apply IH. intros K. apply H. now right.
Qed.

(** C6.  Extraction always returns a list: the empty one when reading
    the file raised, and otherwise one record for every declaration the
    pattern finds, whether or not the braces after it balance.  When the
    brace scan reaches the end of the text, the record is built from a cut
    body, not from the scanned text: in a Swift file from the declaration
    up to, and without, its opening brace (so whenever no closing brace
    follows the declaration); in a C# file from the declaration up to 100
    characters past the end of the pattern's match.
    When the scan closes at [e], the body runs from the declaration to
    [e].  The source "func testX() { b()" gives one record, [testX] on
    line 1 with a body of one line. *)
Theorem C6_extraction_total_and_cut_body :
  (forall is_swift, extract_detailed_test_methods Raised is_swift = Returned []) /\
  (forall content is_swift,
      exists methods,
        extract_detailed_test_methods (Returned content) is_swift = Returned methods /\
        length methods
          = length (finditer (if is_swift then swift_pattern else csharp_pattern)
                             content)) /\
  (forall content m,
      scan_braces (skipn (m_end m - 1) content) (m_end m - 1) 0 = None ->
      swift_method_body content m = slice (m_start m) (m_end m - 1) content) /\
  (forall content m,
      ~ In "}"%char (skipn (m_end m - 1) content) ->
      swift_method_body content m = slice (m_start m) (m_end m - 1) content) /\
  (forall content m e,
      scan_braces (skipn (m_end m - 1) content) (m_end m - 1) 0 = Some e ->
      swift_method_body content m = slice (m_start m) e content) /\
  (forall content m pos,
      pos = find_open_brace (skipn (m_end m) content) (m_end m) ->
      scan_braces (skipn pos content) pos 0 = None ->
      csharp_method_body content m = slice (m_start m) (m_end m + 100) content) /\
  (forall content m pos e,
      pos = find_open_brace (skipn (m_end m) content) (m_end m) ->
      scan_braces (skipn pos content) pos 0 = Some e ->
      csharp_method_body content m = slice (m_start m) e content) /\
  extract_detailed_test_methods (Returned $"func testX() { b()") true
    = Returned [SwiftInfo (mk_swift $"testX" 1 1 false false false false)].
Proof.
  split; [|split; [|split; [|split; [|split; [|split; [|split]]]]]].
  - reflexivity.
  - intros content [|]; eexists; (split; [reflexivity|]); now rewrite length_map.
  - intros content m H. unfold swift_method_body, method_end_from. now rewrite H.
  - intros content m H. unfold swift_method_body, method_end_from.
    now rewrite scan_braces_no_close.
  - intros content m e H. unfold swift_method_body, method_end_from. now rewrite H.
  - intros content m pos -> H. unfold csharp_method_body, method_end_from.
    rewrite H. now rewrite Nat.ltb_irrefl.
  - intros content m pos e -> H. unfold csharp_method_body, method_end_from.
    rewrite H. apply scan_braces_bounds in H.
    destruct (Nat.ltb_spec (find_open_brace (skipn (m_end m) content) (m_end m)) e);
      [reflexivity | lia].
  - now vm_compute.
Qed.

Lemma C6_extraction_total_and_cut_body_witness :
  swift_method_body $"func testX() { b()" (mk_re_match 0 14 [(1, $"testX")])
  = $"func testX() ".
Proof.
  destruct C6_extraction_total_and_cut_body as [_ [_ [H _]]].
  rewrite H; now vm_compute.
Defined.

(** C6, as the specification words it: in the source below the scan goes
    over the opening brace and the line with the assertion and reaches
    the end of the text.  The scanned text has two lines and an
    [XCTAssert]; the record has a body of one line and no assertion,
    because it is built from "func testX() " alone. *)
Lemma C6_scanned_text_not_carried :
  let content := $"func testX() {
  XCTAssert(b)" in
  extract_detailed_test_methods (Returned content) true
    = Returned [SwiftInfo (mk_swift $"testX" 1 1 false false false false)] /\
  exists m,
    finditer swift_pattern content = [m] /\
    scan_braces (skipn (m_end m - 1) content) (m_end m - 1) 0 = None /\
    swift_method_body content m = $"func testX() " /\
    spec_unbalanced_body content m = content /\
    body_length (spec_unbalanced_body content m) = 2 /\
    contains (spec_unbalanced_body content m) $"XCTAssert" = true.
Proof.
  split; [now vm_compute|].
  exists (mk_re_match 0 14 [(1, $"testX")]).
  split; [|split; [|split; [|split; [|split]]]]; now vm_compute.
Qed.

(** ** Dictionaries *)

Section DictFacts.
Context {V : Type}.
Implicit Types (d : dict V) (k : str) (v : V).

Lemma dict_get_In d k v : dict_get d k = Some v -> In (k, v) d.
Proof.
  induction d as [|[k' v'] d IH]; simpl; [discriminate|].
  destruct (str_eqb k k') eqn:E.
  - apply str_eqb_eq in E. intros [= ->]. left. now subst.
  - intros H. right. now apply IH.
Qed.

Lemma dict_get_keys d k : In k (keys d) <-> exists v, dict_get d k = Some v.
Proof.
  induction d as [|[k' v'] d IH]; simpl.
  - split; [contradiction | intros [v H]; discriminate].
  - destruct (str_eqb k k') eqn:E.
    + apply str_eqb_eq in E. split; [intros _; now exists v' | intros _; now left].
    + apply str_eqb_neq in E. rewrite <- IH. split.
      * intros [H | H]; [congruence | assumption].
      * intros H. now right.
Qed.

Lemma dict_get_unique d k v :
  NoDup (keys d) -> In (k, v) d -> dict_get d k = Some v.
Proof.
  induction d as [|[k' v'] d IH]; simpl; [contradiction|].
  intros N H. inversion N as [|? ? Hk Nd]; subst.
  destruct (str_eqb k k') eqn:E.
  - apply str_eqb_eq in E. subst k'. destruct H as [[= ->] | H]; [reflexivity|].
    exfalso. apply Hk. unfold keys. apply in_map_iff. now exists (k, v).
  - apply str_eqb_neq in E. destruct H as [[= -> ->] | H]; [congruence|].
    now apply IH.
Qed.

Lemma dict_set_keys d k v x : In x (keys (dict_set d k v)) <-> In x (keys d) \/ x = k.
Proof.
  induction d as [|[k' v'] d IH]; simpl.
  - intuition congruence.
  - destruct (str_eqb k k') eqn:E; simpl.
    + apply str_eqb_eq in E. subst k'. intuition congruence.
    + rewrite IH. tauto.
Qed.

Lemma dict_set_NoDup d k v : NoDup (keys d) -> NoDup (keys (dict_set d k v)).
Proof.
  induction d as [|[k' v'] d IH]; simpl; intros N.
  - constructor; [intros []|constructor].
  - inversion N as [|? ? Hk Nd]; subst. destruct (str_eqb k k') eqn:E; simpl.
    + now constructor.
    + constructor; [|now apply IH].
      fold (keys (dict_set d k v)). rewrite dict_set_keys.
      apply str_eqb_neq in E. intros [H | H]; [contradiction | congruence].
Qed.

Lemma dict_set_nonempty d k v : dict_set d k v <> [].
Proof.
  destruct d as [|[k' v'] d]; simpl; [discriminate|].
  destruct (str_eqb k k'); discriminate.
Qed.

Lemma dict_set_values (Q : V -> Prop) d k v :
  Forall Q (values d) -> Q v -> Forall Q (values (dict_set d k v)).
Proof.
  induction d as [|[k' v'] d IH]; simpl; intros F q.
  - now repeat constructor.
  - inversion F; subst. destruct (str_eqb k k'); simpl; constructor; auto.
Qed.

Lemma dict_get_value (Q : V -> Prop) d k v :
  Forall Q (values d) -> dict_get d k = Some v -> Q v.
Proof.
  intros F H. apply dict_get_In in H. rewrite Forall_forall in F.
  apply F. unfold values. apply in_map_iff. now exists (k, v).
Qed.

Lemma dict_get_set d k v k0 :
  dict_get (dict_set d k v) k0 = if str_eqb k0 k then Some v else dict_get d k0.
Proof.
  induction d as [|[k' v'] d IH]; simpl.
  - reflexivity.
  - destruct (str_eqb k k') eqn:E; simpl.
    + apply str_eqb_eq in E. subst k'. now destruct (str_eqb k0 k).
    + rewrite IH. destruct (str_eqb k0 k') eqn:E0; [|reflexivity].
      apply str_eqb_eq in E0. subst k'.
      destruct (str_eqb k0 k) eqn:E1; [|reflexivity].
      apply str_eqb_eq in E1. subst k0. now rewrite str_eqb_refl in E.
Qed.

(** Setting a key that is not there appends the entry. *)
Lemma dict_set_fresh d k v (x : str * V) :
  ~ In k (keys d) -> (In x (dict_set d k v) <-> In x d \/ x = (k, v)).
Proof.
  induction d as [|[k' v'] d IH]; simpl; intros H.
  - intuition congruence.
  - destruct (str_eqb k k') eqn:E.
    + apply str_eqb_eq in E. subst k'. tauto.
    + simpl. rewrite IH by tauto. tauto.
Qed.
End DictFacts.

(** ** The coverage analyzer *)

Import Coverage.

Lemma fold_left_inv {A B} (Inv : A -> Prop) (f : A -> B -> A) (l : list B) (a : A) :
  Inv a -> (forall a b, Inv a -> Inv (f a b)) -> Inv (fold_left f l a).
Proof.
  intros Ha Hstep. revert a Ha. induction l as [|b l IH]; simpl; auto.
Qed.

Lemma analyze_tests_nonempty (visited : list (str * list str)) :
  all_methods (fun methods => methods <> []) (analyze_tests visited).
Proof.
  unfold analyze_tests. apply fold_left_inv; [constructor|].
  intros d [f methods] Hd. unfold record_tests. simpl.
  destruct methods as [|m methods]; [assumption|].
  now apply dict_set_values.
Qed.

Lemma categorize_tests_inv (Q : list str -> Prop) (test_dict : tests) :
  all_methods Q test_dict ->
  NoDup (keys (categorize_tests test_dict)) /\
  Forall (fun files => files <> [] /\ all_methods Q files)
         (values (categorize_tests test_dict)).
Proof.
  unfold categorize_tests, all_methods. intros HQ.
  assert (G : forall l acc,
             Forall Q (values l) ->
             NoDup (keys acc) /\
             Forall (fun files : tests => files <> [] /\ Forall Q (values files))
                    (values acc) ->
             NoDup (keys (fold_left categorize_step l acc)) /\
             Forall (fun files : tests => files <> [] /\ Forall Q (values files))
                    (values (fold_left categorize_step l acc))).
  { induction l as [|[f methods] l IH]; intros acc Hl Hacc; simpl; [assumption|].
    simpl in Hl. inversion Hl as [|? ? Hm Hl']; subst.
    apply IH; [assumption|]. destruct Hacc as [N F].
    unfold categorize_step. simpl. split; [now apply dict_set_NoDup|].
    apply dict_set_values; [assumption|]. split; [apply dict_set_nonempty|].
    apply dict_set_values; [|assumption].
    destruct (dict_get acc (category_of f)) as [files|] eqn:E; [|constructor].
    now apply (dict_get_value _ _ _ _ F E). }
  apply G; [assumption|]. split; constructor.
Qed.

Lemma categorize_step_from (categorized : dict tests) (done : tests)
    (f0 : str) (methods0 : list str) :
  ~ In f0 (keys done) ->
  categorized_from categorized done ->
  categorized_from (categorize_step categorized (f0, methods0))
                   (done ++ [(f0, methods0)]).
Proof.
  intros Hfresh [Hfiles Hcat]. unfold categorize_step. simpl fst. simpl snd.
  set (c0 := category_of f0).
  set (files0 := match dict_get categorized c0 with
                 | Some files => files
                 | None => []
                 end).
  assert (F0 : forall f methods,
             In (f, methods) files0 <-> In (f, methods) done /\ category_of f = c0).
  { intros f methods. subst files0.
    destruct (dict_get categorized c0) as [fs|] eqn:G; [now apply Hfiles|].
    split; [contradiction|]. intros [Hin Hc].
    apply Hcat in Hin. apply dict_get_keys in Hin as [v Hv]. congruence. }
  assert (Hnew : ~ In f0 (keys files0)).
  { intros H. unfold keys in H. apply in_map_iff in H as [[f m] [E Hin]].
    simpl in E. subst f. apply F0 in Hin as [Hin _]. apply Hfresh.
    unfold keys. apply in_map_iff. now exists (f0, m). }
  split.
  - intros category files Hget f methods. rewrite dict_get_set in Hget.
    rewrite in_app_iff. simpl.
    destruct (str_eqb category c0) eqn:E.
    + apply str_eqb_eq in E. subst category. injection Hget as <-.
      rewrite dict_set_fresh by assumption. rewrite F0. subst c0.
      intuition congruence.
    + apply str_eqb_neq in E. rewrite (Hfiles _ _ Hget). subst c0.
      intuition congruence.
  - intros f methods Hin. apply dict_set_keys.
    apply in_app_or in Hin as [Hin | [[= <- <-] | []]].
    + left. now apply Hcat in Hin.
    + now right.
Qed.

(** The files that [categorize_tests] puts under a category are the files
    of the dictionary that belong to it. *)
Lemma categorize_tests_files (test_dict : tests) :
  NoDup (keys test_dict) ->
  categorized_from (categorize_tests test_dict) test_dict.
Proof.
  unfold categorize_tests.
  assert (G : forall l acc done,
             NoDup (keys (done ++ l)) ->
             categorized_from acc done ->
             categorized_from (fold_left categorize_step l acc) (done ++ l)).
  { induction l as [|[f0 m0] l IH]; intros acc done N Hacc.
    - now rewrite app_nil_r.
    - simpl. replace (done ++ (f0, m0) :: l) with ((done ++ [(f0, m0)]) ++ l)
        by now rewrite <- app_assoc.
      apply IH; [now rewrite <- app_assoc|].
      apply categorize_step_from; [|assumption].
      unfold keys in N. rewrite map_app in N. simpl in N.
      apply NoDup_remove_2 in N. intros H. apply N. apply in_or_app. now left. }
  intros N. apply (G test_dict [] []); [assumption|].
  split; [discriminate | contradiction].
Qed.




Lemma set_of_In (l : list str) (x : str) : In x (set_of l) <-> In x l.
Proof.
  induction l as [|y l IH]; simpl; [tauto|].
  rewrite filter_In, IH, negb_true_iff, str_eqb_neq.
  destruct (str_eq_dec x y) as [->|N]; intuition congruence.
Qed.

Lemma set_difference_In (a b : list str) (x : str) :
  In x (set_difference a b) <-> In x a /\ ~ In x b.
Proof.
  unfold set_difference. rewrite filter_In, negb_true_iff.
  assert (E : existsb (str_eqb x) b = true <-> In x b).
  { rewrite existsb_exists. split.
    - intros [y [Hy Exy]]. apply str_eqb_eq in Exy. now subst.
    - intros H. exists x. split; [assumption | apply str_eqb_refl]. }
  destruct (existsb (str_eqb x) b); intuition congruence.
Qed.

Lemma files_of_empty (test_dict : tests) (category : str) :
  files_of (categorize_tests test_dict) category = [] <->
  ~ In category (keys (categorize_tests test_dict)).
Proof.
  assert (T : all_methods (fun _ => True) test_dict).
  { unfold all_methods. apply Forall_forall. trivial. }
  destruct (categorize_tests_inv _ _ T) as [_ Hv].
  unfold files_of. rewrite dict_get_keys.
  destruct (dict_get (categorize_tests test_dict) category) as [files|] eqn:E.
  - destruct (dict_get_value _ _ _ _ Hv E) as [Hne _]. split.
    + intros H. contradiction.
    + intros H. exfalso. apply H. now exists files.
  - split; [intros _ [v Hv']; discriminate | reflexivity].
Qed.

(** C8.  The heading of a category is COMPLETE exactly when the category
    has at least one target file and its target method count is at least
    its reference method count; whether each reference file has a
    counterpart plays no part.  It is MISSING exactly when the category
    has no target file, which for a category of the report means
    reference files and no target file; and it is PARTIAL exactly when
    there is a target file and the target count is below the reference
    count. *)
Theorem C8_category_status :
  (forall swift_categorized csharp_categorized category,
      let swift_count := count_methods (files_of swift_categorized category) in
      let csharp_files := files_of csharp_categorized category in
      let csharp_count := count_methods csharp_files in
      let status := category_status swift_categorized csharp_categorized category in
      (status = COMPLETE <-> csharp_files <> [] /\ swift_count <= csharp_count) /\
      (status = MISSING <-> csharp_files = []) /\
      (status = PARTIAL <-> csharp_files <> [] /\ csharp_count < swift_count)) /\
  (forall swift_tests csharp_tests category,
      let swift_categorized := categorize_tests swift_tests in
      let csharp_categorized := categorize_tests csharp_tests in
      In category (all_categories swift_categorized csharp_categorized) ->
      (category_status swift_categorized csharp_categorized category = MISSING <->
       files_of swift_categorized category <> [] /\
       files_of csharp_categorized category = [])).
Proof.
  assert (G : forall sc cc category,
             (category_status sc cc category = COMPLETE <->
              files_of cc category <> [] /\
              count_methods (files_of sc category)
                <= count_methods (files_of cc category)) /\
             (category_status sc cc category = MISSING <-> files_of cc category = []) /\
             (category_status sc cc category = PARTIAL <->
              files_of cc category <> [] /\
              count_methods (files_of cc category)
                < count_methods (files_of sc category))).
  { intros sc cc category. unfold category_status.
    destruct (Nat.leb_spec (count_methods (files_of sc category))
                           (count_methods (files_of cc category))) as [L|L];
      destruct (files_of cc category) as [|x fs] eqn:E; simpl;
      repeat split; try discriminate; try congruence; try lia;
      try (intros [H _]; congruence); try (intros [_ H]; lia). }
  split.
  - intros sc cc category. cbn zeta. apply G.
  - intros sw cs category sc cc Hin.
    destruct (G sc cc category) as [_ [M _]]. rewrite M.
    split; [|tauto]. intros H. split; [|assumption].
    unfold all_categories in Hin. apply set_of_In, in_app_or in Hin.
    subst sc cc. rewrite files_of_empty in H. rewrite files_of_empty.
    destruct Hin as [Hin | Hin]; [tauto | contradiction].
Qed.

Lemma C8_category_status_witness :
  category_status (categorize_tests [($"crypto/ATests.swift", [$"testA"])])
                  (categorize_tests []) $"crypto" = MISSING.
Proof.
  destruct C8_category_status as [_ H].
  apply (H [($"crypto/ATests.swift", [$"testA"])] [] $"crypto").
  - vm_compute. now left.
  - split; [vm_compute; discriminate | reflexivity].
Defined.

(** C8, as the specification words it: a category where the reference file
    [BTests] has no counterpart is headed COMPLETE, because the one target
    file has more methods than the two reference files together; the
    missing-file analysis of the same input reports [BTests]. *)
Lemma C8_complete_despite_missing_file :
  let swift_tests := [($"crypto/ATests.swift", [$"testA"]);
                      ($"crypto/BTests.swift", [$"testB"])] in
  let csharp_tests := [($"Crypto/ATests.cs", [$"TestA"; $"TestA2"; $"TestA3"])] in
  category_status (categorize_tests swift_tests) (categorize_tests csharp_tests)
                  $"crypto" = COMPLETE /\
  missing_files (find_missing_coverage swift_tests csharp_tests)
  = [mk_missing_file $"crypto" $"crypto/BTests.swift" 1 [$"testB"]].
Proof. split; now vm_compute. Qed.

(** The files reported for one category. *)
Lemma missing_in_category_In (category : str) (swift_files csharp_files : tests)
    (e : missing_file) :
  In e (missing_in_category category swift_files csharp_files) <->
  exists f methods,
    In (f, methods) swift_files /\
    e = mk_missing_file category f (length methods) methods /\
    ~ In (file_id f) (map file_id (keys csharp_files)).
Proof.
  unfold missing_in_category. rewrite in_flat_map. split.
  - intros [id [Hid He]]. apply set_difference_In in Hid as [Hs Hc].
    rewrite set_of_In in Hs, Hc.
    apply in_flat_map in He as [[f methods] [Hf He]]. simpl in He.
    destruct (str_eqb (file_id f) id) eqn:E; [|contradiction].
    apply str_eqb_eq in E. subst id. destruct He as [<- | []].
    now exists f, methods.
  - intros [f [methods [Hf [-> Hc]]]]. exists (file_id f). split.
    + apply set_difference_In. rewrite !set_of_In. split; [|assumption].
      apply in_map. unfold keys. apply in_map_iff. now exists (f, methods).
    + apply in_flat_map. exists (f, methods). split; [assumption|]. simpl.
      rewrite str_eqb_refl. now left.
Qed.

Lemma missing_in_category_category (category : str)
    (swift_files csharp_files : tests) (e : missing_file) :
  In e (missing_in_category category swift_files csharp_files) ->
  mf_category e = category.
Proof.
  intros H. apply missing_in_category_In in H as [f [methods [_ [-> _]]]].
  reflexivity.
Qed.

(** C9.  Take a category that both suites have; its files on either side
    are the stored files whose path falls in the category.  A reference
    file of the category is reported missing exactly when its identifier
    is not the identifier of any target file of the category, and it is
    reported with its method list.  The identifier of a file is its name
    without the extension and without the occurrences of "Tests", wherever
    in the name they stand: a stem without "Tests" is its own identifier,
    and in a stem that has one the first occurrence is cut out and the
    text after it treated in the same way. *)
Theorem C9_missing_files_by_identifier
    (swift_tests csharp_tests : tests) (category : str)
    (swift_files csharp_files : tests) :
  dict_get (categorize_tests swift_tests) category = Some swift_files ->
  dict_get (categorize_tests csharp_tests) category = Some csharp_files ->
  (NoDup (keys swift_tests) ->
   forall f methods,
     In (f, methods) swift_files <->
     In (f, methods) swift_tests /\ category_of f = category) /\
  (NoDup (keys csharp_tests) ->
   forall g methods,
     In (g, methods) csharp_files <->
     In (g, methods) csharp_tests /\ category_of g = category) /\
  (forall f, ~ substring $"Tests" (path_stem f) -> file_id f = path_stem f) /\
  (forall f pre post,
      path_stem f = pre ++ $"Tests" ++ post ->
      ~ substring $"Tests" (pre ++ $"Test") ->
      file_id f = pre ++ replace $"Tests" [] post) /\
  (forall e,
      In e (missing_files (find_missing_coverage swift_tests csharp_tests)) /\
      mf_category e = category
      <->
      exists f methods,
        In (f, methods) swift_files /\
        e = mk_missing_file category f (length methods) methods /\
        ~ In (file_id f) (map file_id (keys csharp_files))).
Proof.
  intros Hs Hc. split; [|split; [|split; [|split]]].
  { intros N. destruct (categorize_tests_files _ N) as [H _]. exact (H _ _ Hs). }
  { intros N. destruct (categorize_tests_files _ N) as [H _]. exact (H _ _ Hc). }
  { intros f H. unfold file_id. now apply replace_absent. }
  { intros f pre post E H. unfold file_id. rewrite E.
    exact (replace_first $"Test" "s" [] pre post H). }
  intros e.
  unfold find_missing_coverage. cbn [missing_files]. rewrite in_flat_map. split.
  - intros [[[cat sf] [Hin He]] Hcat]. simpl in He.
    destruct (dict_get (categorize_tests csharp_tests) cat) as [cf|] eqn:E;
      [|contradiction].
    pose proof (missing_in_category_category _ _ _ _ He) as Hcat'.
    assert (cat = category) by congruence. subst cat.
    assert (T : all_methods (fun _ => True) swift_tests).
    { unfold all_methods. apply Forall_forall. trivial. }
    destruct (categorize_tests_inv _ _ T) as [N _].
    pose proof (dict_get_unique _ _ _ N Hin) as Hs'.
    assert (sf = swift_files) by congruence.
    assert (cf = csharp_files) by congruence. subst sf cf.
    rewrite H in He. now apply missing_in_category_In.
  - intros H. split.
    + exists (category, swift_files). split; [now apply dict_get_In|].
      simpl. rewrite Hc. now apply missing_in_category_In.
    + destruct H as [f [methods [_ [-> _]]]]. reflexivity.
Qed.

Lemma C9_missing_files_by_identifier_witness :
  In (mk_missing_file $"crypto" $"crypto/BTests.swift" 1 [$"testB"])
     (missing_files
        (find_missing_coverage
           [($"crypto/ATests.swift", [$"testA"]); ($"crypto/BTests.swift", [$"testB"])]
           [($"Crypto/ATests.cs", [$"TestA"])])).
Proof.
  pose proof (C9_missing_files_by_identifier
                [($"crypto/ATests.swift", [$"testA"]); ($"crypto/BTests.swift", [$"testB"])]
                [($"Crypto/ATests.cs", [$"TestA"])]
                $"crypto"
                [($"crypto/ATests.swift", [$"testA"]); ($"crypto/BTests.swift", [$"testB"])]
                [($"Crypto/ATests.cs", [$"TestA"])]
                eq_refl eq_refl) as [_ [_ [_ [_ H]]]].
  apply H. exists $"crypto/BTests.swift", [$"testB"].
  split; [right; now left|]. split; [reflexivity|].
  vm_compute. intros [H0 | []]. discriminate.
Defined.

(** C9, as the specification words it: with the "Tests" taken off the end only,
    [HashTestsExtraTests] has the identifier "HashTestsExtra", which no
    target file has, so the file would be missing; the code removes both
    occurrences, finds "HashExtra" on both sides and reports nothing. *)
Lemma C9_tests_removed_everywhere :
  let swift_tests := [($"crypto/HashTestsExtraTests.swift", [$"testA"])] in
  let csharp_tests := [($"Crypto/HashExtraTests.cs", [$"TestA"])] in
  spec_file_id $"crypto/HashTestsExtraTests.swift" = $"HashTestsExtra" /\
  ~ In (spec_file_id $"crypto/HashTestsExtraTests.swift")
       (map spec_file_id (keys csharp_tests)) /\
  file_id $"crypto/HashTestsExtraTests.swift" = $"HashExtra" /\
  missing_files (find_missing_coverage swift_tests csharp_tests) = [].
Proof.
  split; [now vm_compute|]. split; [|split; now vm_compute].
  vm_compute. intros [H | []]. discriminate.
Qed.

(** ** Worked examples *)

Example normalize_both_conventions :
  normalize_test_name $"testFooBar" = $"foobar" /\
  normalize_test_name $"foo_bar_test" = $"foobar".
Proof. split; now vm_compute. Qed.

Example partial_match_testMint :
  let s := mk_swift $"testMint" 1 1 false true false false in
  let c := mk_csharp $"TestMintToken" 1 $"void" 1 false false true false false false in
  find_matching_c_sharp_method s [c] = Some (mk_match partial c).
Proof. now vm_compute. Qed.

Example nested_braces_body :
  let content := $"func testX() { if (a) { b() } }" in
  exists m,
    finditer swift_pattern content = [m] /\
    swift_method_body content m = content /\
    sw_body_length (swift_test_info content m) = 1.
Proof.
  exists (mk_re_match 0 14 [(1, $"testX")]). split; [|split]; now vm_compute.
Qed.

Example file_pair_scenario :
  let sw n := mk_swift n 1 1 false true false false in
  let cs n := mk_csharp n 1 $"void" 1 false false true false false false in
  let a := analyze_file_pair $"x.swift" $"x.cs"
             [sw $"testA"; sw $"testB"; sw $"testAsyncC"]
             [cs $"TestA"; cs $"TestBExtra"; cs $"TestAsyncC"; cs $"TestD"] in
  matched_methods a
  = [ mk_matched (sw $"testA") (cs $"TestA") exact;
      mk_matched (sw $"testB") (cs $"TestBExtra") partial;
      mk_matched (sw $"testAsyncC") (cs $"TestAsyncC") exact ] /\
  unmatched_swift a = [] /\
  extra_csharp a = [cs $"TestD"] /\
  coverage_percentage (a_coverage_stats a) = Fin 100 /\
  enhancement_factor (a_coverage_stats a) = Fin (133 # 100).
Proof. repeat split; now vm_compute. Qed.

(** * Further properties *)

(** ** The normalizer and the matcher *)

(** X1.  A normalized name has no underscore, is left unchanged by
    lower-casing, and is made of characters of the lower-cased name, of
    which it is never longer. *)
Theorem X1_normalized_name_shape (name : str) :
  ~ In "_"%char (normalize_test_name name) /\
  lower (normalize_test_name name) = normalize_test_name name /\
  (forall c, In c (normalize_test_name name) -> In c (lower name)) /\
  length (normalize_test_name name) <= length (lower name).
Proof.
  split; [|split; [|split]].
  - intros H. apply normalize_In in H as [_ H]. discriminate.
  - apply normalize_lower.
  - intros c H. now apply normalize_In in H.
  - rewrite normalize_unfold. cbv zeta.
    etransitivity; [apply filter_length_le|].
    do 4 (etransitivity; [apply strip_suffix_le|]).
    destruct (startswith (lower name) $"test"); [|reflexivity].
    rewrite length_skipn. lia.
Qed.

(** X2.  Letter case plays no part in matching: a reference and a
    candidate whose names are equal up to case are an EXACT pair, so a
    list that holds such a candidate gives an EXACT match with a candidate
    of the same normalized name. *)
Theorem X2_case_insensitive_exact
    (swift_method : swift_method) (csharp_methods : list csharp_method)
    (c : csharp_method) :
  lower (sw_name swift_method) = lower (cs_name c) ->
  In c csharp_methods ->
  exists c',
    find_matching_c_sharp_method swift_method csharp_methods
      = Some (mk_match exact c') /\
    normalize_test_name (cs_name c') = normalize_test_name (sw_name swift_method).
Proof.
  intros Hlow Hin. unfold find_matching_c_sharp_method.
  set (n := normalize_test_name (sw_name swift_method)).
  destruct (first_hit_In (is_exact n) csharp_methods c Hin) as [c' [E T]].
  - unfold is_exact. apply str_eqb_eq. subst n.
    rewrite (normalize_of_lower (sw_name swift_method) _ Hlow).
    symmetry. now apply normalize_of_lower.
  - rewrite E. exists c'. split; [reflexivity|].
    unfold is_exact in T. apply str_eqb_eq in T. now symmetry.
Qed.

Lemma X2_case_insensitive_exact_witness :
  let s := mk_swift $"testGetBalance" 3 4 false true false false in
  let c := mk_csharp $"TestGetBalance" 7 $"void" 5 false false true false false false in
  exists c',
    find_matching_c_sharp_method s [c] = Some (mk_match exact c') /\
    normalize_test_name (cs_name c') = normalize_test_name (sw_name s).
Proof.
  intros s c. apply (X2_case_insensitive_exact s [c] c).
  - vm_compute. reflexivity.
  - now left.
Defined.

Lemma first_hit_member (test : csharp_method -> bool) (l : list csharp_method)
    (c : csharp_method) :
  first_hit test l = Some c -> In c l /\ test c = true.
Proof.
  induction l as [|x l IH]; simpl; [discriminate|].
  destruct (test x) eqn:E.
  - intros [= <-]. split; [now left | assumption].
  - intros H. apply IH in H as [H T]. split; [now right | assumption].
Qed.

(** X3.  The matcher only ever answers with one of the candidates it was
    given, and with no candidates it answers nothing. *)
Theorem X3_match_is_a_candidate
    (swift_method : swift_method) (csharp_methods : list csharp_method) :
  find_matching_c_sharp_method swift_method [] = None /\
  (forall m,
      find_matching_c_sharp_method swift_method csharp_methods = Some m ->
      In (mr_method m) csharp_methods).
Proof.
  split; [reflexivity|]. intros m. unfold find_matching_c_sharp_method.
  destruct (first_hit (is_exact _) csharp_methods) as [c|] eqn:E.
  - intros [= <-]. now apply first_hit_member in E.
  - destruct (first_hit (is_partial _) csharp_methods) as [c|] eqn:P; [|discriminate].
    intros [= <-]. now apply first_hit_member in P.
Qed.

Lemma X3_match_is_a_candidate_witness :
  let s := mk_swift $"testMint" 1 1 false true false false in
  let c := mk_csharp $"TestMintToken" 1 $"void" 1 false false true false false false in
  In c [c].
Proof.
  intros s c.
  destruct (X3_match_is_a_candidate s [c]) as [_ H].
  apply (H (mk_match partial c)). now vm_compute.
Defined.

Lemma contains_empty (hay : str) : contains hay [] = true.
Proof. destruct hay; reflexivity. Qed.

(** X4.  The empty string is inside every string, so an empty normalized
    name matches anything: a reference whose name normalizes to the empty
    string (such as "test") is matched against every non-empty candidate
    list, and one candidate whose name normalizes to the empty string
    (such as "Test") gives every reference a match. *)
Theorem X4_empty_normalized_name_matches_all
    (swift_method : swift_method) (csharp_methods : list csharp_method) :
  (normalize_test_name (sw_name swift_method) = [] ->
   csharp_methods <> [] ->
   has_match csharp_methods swift_method = true) /\
  (forall c,
      In c csharp_methods ->
      normalize_test_name (cs_name c) = [] ->
      has_match csharp_methods swift_method = true).
Proof.
  unfold has_match, find_matching_c_sharp_method. split.
  - intros Hn Hne. rewrite Hn.
    destruct (first_hit (is_exact []) csharp_methods); [reflexivity|].
    destruct csharp_methods as [|c l]; [congruence|]. cbn [first_hit].
    unfold is_partial at 1. now rewrite contains_empty.
  - intros c Hin Hc.
    destruct (first_hit (is_exact _) csharp_methods); [reflexivity|].
    destruct (first_hit_In (is_partial (normalize_test_name (sw_name swift_method)))
                csharp_methods c Hin) as [c' [E _]].
    + unfold is_partial. rewrite Hc, contains_empty. apply orb_true_r.
    + now rewrite E.
Qed.

Lemma X4_empty_normalized_name_matches_all_witness :
  let s := mk_swift $"test" 1 1 false true false false in
  let c := mk_csharp $"TestTransfer" 1 $"void" 1 false false true false false false in
  has_match [c] s = true.
Proof.
  intros s c. destruct (X4_empty_normalized_name_matches_all s [c]) as [H _].
  apply H; [vm_compute; reflexivity | discriminate].
Defined.

(** ** The file-pair analysis *)

Lemma is_type_partial (m : matched_entry) :
  is_type partial m = negb (is_type exact m).
Proof. unfold is_type. now destruct (me_match_type m). Qed.

(** X5.  The counts of an analysis add up: every reference method is
    counted once, as an exact match, a partial match or a missing method,
    and the enhancement methods are at most the target methods. *)
Theorem X5_counts_add_up
    (swift_file csharp_file : str)
    (swift_methods : list swift_method) (csharp_methods : list csharp_method) :
  let a := analyze_file_pair swift_file csharp_file swift_methods csharp_methods in
  let stats := a_coverage_stats a in
  exact_matches stats + partial_matches stats + missing_methods stats
    = length swift_methods /\
  exact_matches stats + partial_matches stats = length (matched_methods a) /\
  enhancement_methods stats <= length csharp_methods.
Proof.
  destruct (match_loop_closed csharp_methods swift_methods) as [M [U _]].
  cbn zeta in *. unfold analyze_file_pair.
  cbn [a_coverage_stats matched_methods exact_matches partial_matches
       missing_methods enhancement_methods].
  set (st := match_loop swift_methods csharp_methods) in *.
  assert (E : length (filter (is_type exact) (ls_matched st))
              + length (filter (is_type partial) (ls_matched st))
              = length (ls_matched st)).
  { rewrite (filter_ext (is_type partial) (fun m => negb (is_type exact m)))
      by apply is_type_partial.
    apply filter_partition_length. }
  split; [|split].
  - rewrite E, U, M. rewrite <- (length_map me_swift), matched_of_swift.
    apply filter_partition_length.
  - exact E.
  - apply filter_length_le.
Qed.

Lemma has_match_nil (s : swift_method) : has_match [] s = false.
Proof. reflexivity. Qed.

Lemma filter_none {A} (f : A -> bool) (l : list A) :
  (forall x, In x l -> f x = false) -> filter f l = [].
Proof.
  induction l as [|x l IH]; simpl; intros H; [reflexivity|].
  rewrite (H x) by now left. apply IH. intros y Hy. apply H. now right.
Qed.

Lemma flat_map_matched_none (cs : list csharp_method) (l : list swift_method) :
  (forall s, In s l -> has_match cs s = false) -> flat_map (matched_of cs) l = [].
Proof.
  induction l as [|s l IH]; intros H; [reflexivity|]. simpl.
  rewrite IH by (intros x Hx; apply H; now right).
  specialize (H s (or_introl eq_refl)). unfold has_match, matched_of in *.
  now destruct (find_matching_c_sharp_method s cs).
Qed.

(** X6.  Against an empty target file every reference method is missing
    and nothing is extra; for an empty reference file every target method
    is extra. *)
Theorem X6_empty_sides
    (swift_file csharp_file : str)
    (swift_methods : list swift_method) (csharp_methods : list csharp_method) :
  (let a := analyze_file_pair swift_file csharp_file swift_methods [] in
   matched_methods a = [] /\ unmatched_swift a = swift_methods /\
   extra_csharp a = []) /\
  (let a := analyze_file_pair swift_file csharp_file [] csharp_methods in
   matched_methods a = [] /\ unmatched_swift a = [] /\
   extra_csharp a = csharp_methods).
Proof.
  split.
  - destruct (match_loop_closed [] swift_methods) as [M [U _]].
    cbn zeta in *. unfold analyze_file_pair.
    cbn [matched_methods unmatched_swift extra_csharp].
    rewrite M, U. split; [|split].
    + apply flat_map_matched_none. intros; apply has_match_nil.
    + apply filter_all. reflexivity.
    + reflexivity.
  - cbn zeta. unfold analyze_file_pair.
    cbn [matched_methods unmatched_swift extra_csharp]. simpl match_loop.
    repeat split. apply filter_all. reflexivity.
Qed.

Lemma ratio_same (n : nat) : 0 < n -> ratio n n = 1%Q.
Proof.
  intros H. unfold ratio.
  rewrite (Qred_complete _ 1%Q); [reflexivity|].
  apply Qmult_inv_r. unfold inject_Z, Qeq. simpl. lia.
Qed.

Lemma ratio_zero (n : nat) : ratio 0 n = 0%Q.
Proof.
  unfold ratio. rewrite (Qred_complete _ 0%Q); [reflexivity|].
  simpl Z.of_nat. unfold Qdiv. ring.
Qed.

(** X7.  When every reference method of a non-empty reference file has
    a match, the coverage is exactly 100 and the pair is marked OK; when
    none has, the coverage is exactly 0 and the pair is marked FAIL. *)
Theorem X7_full_and_no_coverage
    (swift_file csharp_file : str)
    (swift_methods : list swift_method) (csharp_methods : list csharp_method) :
  let a := analyze_file_pair swift_file csharp_file swift_methods csharp_methods in
  (swift_methods <> [] ->
   (forall s, In s swift_methods -> has_match csharp_methods s = true) ->
   coverage_percentage (a_coverage_stats a) = Fin 100 /\
   MappingReport.pair_status a = MappingReport.OK) /\
  ((forall s, In s swift_methods -> has_match csharp_methods s = false) ->
   coverage_percentage (a_coverage_stats a) = Fin 0 /\
   MappingReport.pair_status a = MappingReport.FAIL).
Proof.
  destruct (match_loop_closed csharp_methods swift_methods) as [M _].
  cbn zeta in *. unfold MappingReport.pair_status, analyze_file_pair.
  cbn [a_coverage_stats coverage_percentage].
  set (st := match_loop swift_methods csharp_methods) in *.
  split.
  - intros Hne Hall.
    assert (L : length (ls_matched st) = length swift_methods).
    { rewrite M, <- (length_map me_swift), matched_of_swift.
      now rewrite filter_all. }
    rewrite L. destruct swift_methods as [|s l]; [congruence|].
    rewrite ratio_same by (simpl; lia). split; now vm_compute.
  - intros Hnone.
    assert (L : length (ls_matched st) = 0).
    { rewrite M, flat_map_matched_none; [reflexivity | assumption]. }
    rewrite L. destruct swift_methods as [|s l]; [split; now vm_compute|].
    rewrite ratio_zero. split; now vm_compute.
Qed.

Lemma X7_full_and_no_coverage_witness :
  let s := mk_swift $"testMint" 1 1 false true false false in
  let c := mk_csharp $"TestMintToken" 1 $"void" 1 false false true false false false in
  coverage_percentage (a_coverage_stats (analyze_file_pair $"a.swift" $"a.cs" [s] [c]))
  = Fin 100.
Proof.
  intros s c.
  destruct (X7_full_and_no_coverage $"a.swift" $"a.cs" [s] [c]) as [H _].
  apply H; [discriminate|]. intros x [<- | []]. now vm_compute.
Defined.

Lemma first_hit_app (test : csharp_method -> bool) (l l' : list csharp_method) :
  first_hit test (l ++ l') =
  match first_hit test l with
  | Some c => Some c
  | None => first_hit test l'
  end.
Proof.
  induction l as [|x l IH]; [reflexivity|]. simpl. now destruct (test x).
Qed.

(** X8.  Candidates added at the end of the list never take a match
    away: an EXACT match stays as it is, and a PARTIAL match stays as it
    is unless one of the added candidates is an EXACT one, which then
    replaces it. *)
Theorem X8_more_candidates
    (swift_method : swift_method) (csharp_methods more : list csharp_method)
    (c : csharp_method) :
  (find_matching_c_sharp_method swift_method csharp_methods
     = Some (mk_match exact c) ->
   find_matching_c_sharp_method swift_method (csharp_methods ++ more)
     = Some (mk_match exact c)) /\
  (find_matching_c_sharp_method swift_method csharp_methods
     = Some (mk_match partial c) ->
   find_matching_c_sharp_method swift_method (csharp_methods ++ more)
     = Some (mk_match partial c) \/
   exists c', In c' more /\
     find_matching_c_sharp_method swift_method (csharp_methods ++ more)
       = Some (mk_match exact c')).
Proof.
  unfold find_matching_c_sharp_method.
  set (n := normalize_test_name (sw_name swift_method)).
  rewrite !first_hit_app. split.
  - destruct (first_hit (is_exact n) csharp_methods); [trivial|].
    destruct (first_hit (is_partial n) csharp_methods); discriminate.
  - destruct (first_hit (is_exact n) csharp_methods); [discriminate|].
    destruct (first_hit (is_partial n) csharp_methods) as [p|]; [|discriminate].
    intros [= ->].
    destruct (first_hit (is_exact n) more) as [e|] eqn:E; [|now left].
    right. exists e. split; [|reflexivity]. now apply first_hit_member in E.
Qed.

Lemma X8_more_candidates_witness :
  let s := mk_swift $"testMint" 1 1 false true false false in
  let c := mk_csharp $"TestMint" 1 $"void" 1 false false true false false false in
  let d := mk_csharp $"TestMintToken" 9 $"void" 1 false false true false false false in
  find_matching_c_sharp_method s ([c] ++ [d]) = Some (mk_match exact c).
Proof.
  intros s c d. destruct (X8_more_candidates s [c] [d] c) as [H _].
  apply H. now vm_compute.
Defined.

(** X9.  Reference methods are matched independently of one another:
    the matched and the unmatched list of two reference lists put
    together are the two lists of the parts put together, and a target is
    extra for the whole exactly when it is extra for both parts. *)
Theorem X9_references_independent
    (swift_file csharp_file : str)
    (l1 l2 : list swift_method) (csharp_methods : list csharp_method) :
  let whole := analyze_file_pair swift_file csharp_file (l1 ++ l2) csharp_methods in
  let a1 := analyze_file_pair swift_file csharp_file l1 csharp_methods in
  let a2 := analyze_file_pair swift_file csharp_file l2 csharp_methods in
  matched_methods whole = matched_methods a1 ++ matched_methods a2 /\
  unmatched_swift whole = unmatched_swift a1 ++ unmatched_swift a2 /\
  (forall c, In c (extra_csharp whole) <->
             In c (extra_csharp a1) /\ In c (extra_csharp a2)).
Proof.
  destruct (match_loop_closed csharp_methods (l1 ++ l2)) as [M [U N]].
  destruct (match_loop_closed csharp_methods l1) as [M1 [U1 N1]].
  destruct (match_loop_closed csharp_methods l2) as [M2 [U2 N2]].
  cbn zeta in *. unfold analyze_file_pair.
  cbn [matched_methods unmatched_swift extra_csharp].
  rewrite M, U, M1, U1, M2, U2, flat_map_app, filter_app.
  split; [reflexivity|]. split; [reflexivity|].
  intros c. rewrite !filter_In, !negb_true_iff.
  assert (S : forall l st,
             (forall n, In n (ls_matched_cs_methods st) <->
                        In n (claimed_names (ls_matched st))) ->
             ls_matched st = flat_map (matched_of csharp_methods) l ->
             (set_mem (cs_name c) (ls_matched_cs_methods st) = false <->
              ~ In (cs_name c)
                   (claimed_names (flat_map (matched_of csharp_methods) l)))).
  { intros l st Hn Hm. rewrite <- Hm, <- Hn, <- set_mem_In.
    destruct (set_mem (cs_name c) (ls_matched_cs_methods st)); split; congruence. }
  rewrite (S _ _ N M), (S _ _ N1 M1), (S _ _ N2 M2).
  unfold claimed_names. rewrite flat_map_app, map_app, in_app_iff. tauto.
Qed.

(** ** The brace scan *)

Lemma count_char_cons (c x : ascii) (w : str) :
  count_char c (x :: w) = (if Ascii.eqb c x then 1 else 0) + count_char c w.
Proof. unfold count_char. simpl. now destruct (Ascii.eqb c x). Qed.

Lemma depth_after_cons (b : Z) (x : ascii) (w : str) :
  depth_after b (x :: w) =
  depth_after (if Ascii.eqb x "{" then b + 1
               else if Ascii.eqb x "}" then b - 1 else b)%Z w.
Proof.
  unfold depth_after. rewrite !count_char_cons.
  rewrite (Ascii.eqb_sym "{" x), (Ascii.eqb_sym "}" x).
  destruct (Ascii.eqb x "{") eqn:E1.
  - apply Ascii.eqb_eq in E1. subst x. simpl. lia.
  - destruct (Ascii.eqb x "}"); simpl; lia.
Qed.

Lemma depth_after_nil (b : Z) : depth_after b [] = b.
Proof. unfold depth_after. simpl. lia. Qed.

Lemma scan_braces_closes (rest : str) (i : nat) (b : Z) (e : nat) :
  scan_braces rest i b = Some e <-> exists k, e = i + S k /\ closes_at rest b k.
Proof.
  revert i b. induction rest as [|x rest IH]; intros i b.
  - simpl. split; [discriminate|]. intros [k [_ [H _]]]. now destruct k.
  - assert (Shift : forall b',
               (forall w, depth_after b (x :: w) = depth_after b' w) ->
               (x = "}"%char -> b' <> 0%Z) ->
               ((exists k, e = S i + S k /\ closes_at rest b' k) <->
                (exists k, e = i + S k /\ closes_at (x :: rest) b k))).
    { intros b' Hd Hx. split.
      - intros [k [-> [Hn [Hz Hmin]]]]. exists (S k). split; [lia|].
        split; [exact Hn|]. split.
        + change (firstn (S (S k)) (x :: rest)) with (x :: firstn (S k) rest).
          now rewrite Hd.
        + intros [|j] Hj Hnj.
          * simpl in Hnj. injection Hnj as ->. simpl firstn.
            rewrite Hd, depth_after_nil. now apply Hx.
          * change (firstn (S (S j)) (x :: rest)) with (x :: firstn (S j) rest).
            rewrite Hd. apply Hmin; [lia | exact Hnj].
      - intros [[|k] [-> [Hn [Hz Hmin]]]].
        + exfalso. simpl in Hn. injection Hn as ->. simpl firstn in Hz.
          rewrite Hd, depth_after_nil in Hz. now apply Hx.
        + exists k. split; [lia|]. split; [exact Hn|]. split.
          * change (firstn (S (S k)) (x :: rest)) with (x :: firstn (S k) rest) in Hz.
            now rewrite Hd in Hz.
          * intros j Hj Hnj.
            specialize (Hmin (S j) ltac:(lia) Hnj).
            change (firstn (S (S j)) (x :: rest)) with (x :: firstn (S j) rest) in Hmin.
            now rewrite Hd in Hmin. }
    simpl scan_braces. destruct (Ascii.eqb x "{") eqn:E1.
    + rewrite IH. apply Shift.
      * intros w. rewrite depth_after_cons. now rewrite E1.
      * intros ->. discriminate.
    + destruct (Ascii.eqb x "}") eqn:E2.
      * destruct (b - 1 =? 0)%Z eqn:Z0.
        -- apply Z.eqb_eq in Z0. apply Ascii.eqb_eq in E2. subst x. split.
           ++ intros [= <-]. exists 0. split; [lia|]. split; [reflexivity|]. split.
              ** simpl firstn. rewrite depth_after_cons, depth_after_nil. simpl. lia.
              ** intros j Hj. lia.
           ++ intros [[|k] [-> [Hn [Hz Hmin]]]]; [f_equal; lia|].
              exfalso. apply (Hmin 0); [lia | reflexivity |].
              simpl firstn. rewrite depth_after_cons, depth_after_nil. simpl. lia.
        -- rewrite IH. apply Shift.
           ++ intros w. rewrite depth_after_cons. now rewrite E1, E2.
           ++ intros _. now apply Z.eqb_neq in Z0.
      * rewrite IH. apply Shift.
        -- intros w. rewrite depth_after_cons. now rewrite E1, E2.
        -- intros ->. discriminate.
Qed.

(** X10.  The end of a method is found by counting braces from [pos]:
    either no closing brace brings the count back to zero, and
    [method_end] stays at [pos]; or [method_end] is the position just
    after the first closing brace at which as many braces have closed as
    have opened, and that position lies within the text. *)
Theorem X10_method_end (content : str) (pos : nat) :
  let method_end := method_end_from content pos in
  (method_end = pos /\ forall k, ~ closes_at (skipn pos content) 0 k) \/
  (exists k,
      method_end = pos + S k /\
      closes_at (skipn pos content) 0 k /\
      method_end <= length content /\
      nth_error content (method_end - 1) = Some "}"%char).
Proof.
  cbn zeta. unfold method_end_from.
  destruct (scan_braces (skipn pos content) pos 0) as [e|] eqn:E.
  - right. apply scan_braces_closes in E as [k [-> C]]. exists k.
    split; [reflexivity|]. split; [assumption|].
    destruct C as [Hn _]. rewrite nth_error_skipn in Hn.
    replace (pos + S k - 1) with (pos + k) by lia. split; [|assumption].
    assert (pos + k < length content) by (apply nth_error_Some; congruence). lia.
  - left. split; [reflexivity|]. intros k C.
    assert (H : scan_braces (skipn pos content) pos 0 = Some (pos + S k)).
    { apply scan_braces_closes. now exists k. }
    congruence.
Qed.

(** X11.  The search for the opening brace of a C# method stops at the
    first opening brace at or after the end of the declaration, or at the
    end of the text when there is none. *)
Theorem X11_find_open_brace (rest : str) (pos : nat) :
  let found := find_open_brace rest pos in
  pos <= found <= pos + length rest /\
  ~ In "{"%char (firstn (found - pos) rest) /\
  (nth_error rest (found - pos) = Some "{"%char \/
   (found = pos + length rest /\ ~ In "{"%char rest)).
Proof.
  cbn zeta. revert pos. induction rest as [|x rest IH]; intros pos; simpl.
  - rewrite Nat.sub_diag. simpl. split; [lia|]. split; [tauto|].
    right. split; [lia | tauto].
  - destruct (Ascii.eqb x "{") eqn:E.
    + apply Ascii.eqb_eq in E. subst x. rewrite Nat.sub_diag. simpl.
      split; [lia|]. split; [tauto | now left].
    + apply Ascii.eqb_neq in E. destruct (IH (S pos)) as [[L1 L2] [N D]].
      replace (find_open_brace rest (S pos) - pos)
        with (S (find_open_brace rest (S pos) - S pos)) by lia.
      simpl. split; [lia|]. split.
      * intros [H | H]; [congruence | contradiction].
      * destruct D as [D | [D1 D2]]; [now left|]. right. split; [lia|].
        intros [H | H]; [congruence | contradiction].
Qed.

Lemma split_nonempty (sep : ascii) (s : str) : split sep s <> [].
Proof.
  destruct s as [|c s]; simpl; [discriminate|].
  destruct (Ascii.eqb c sep); [discriminate|].
  destruct (split sep s); discriminate.
Qed.

Lemma split_length (sep : ascii) (s : str) :
  length (split sep s) = count_char sep s + 1.
Proof.
  induction s as [|c s IH]; [reflexivity|].
  rewrite count_char_cons, (Ascii.eqb_sym sep c). simpl.
  destruct (Ascii.eqb c sep); simpl; [now rewrite IH|].
  pose proof (split_nonempty sep s) as Hne.
  destruct (split sep s); [congruence|]. exact IH.
Qed.

Lemma count_char_firstn (c : ascii) (n : nat) (s : str) :
  count_char c (firstn n s) <= count_char c s.
Proof.
  revert n. induction s as [|x s IH]; intros [|n]; simpl firstn;
    rewrite ?count_char_cons; try (unfold count_char; simpl; lia).
  specialize (IH n). lia.
Qed.

(** X12.  Every extracted record has a line number that is at least 1
    and at most the number of lines of the file, and a body length of at
    least 1; the body length is the number of line breaks in the body
    plus one. *)
Theorem X12_record_lines (content : str) (is_swift : bool) :
  (forall method_body, body_length method_body = count_char newline method_body + 1) /\
  exists methods,
    extract_detailed_test_methods (Returned content) is_swift = Returned methods /\
    Forall (fun info =>
              match info with
              | SwiftInfo m =>
                  1 <= sw_line m <= body_length content /\ 1 <= sw_body_length m
              | CSharpInfo m =>
                  1 <= cs_line m <= body_length content /\ 1 <= cs_body_length m
              end) methods.
Proof.
  assert (B : forall b, body_length b = count_char newline b + 1).
  { intros b. apply split_length. }
  assert (L : forall m, 1 <= line_start content m <= body_length content).
  { intros m. unfold line_start, slice. rewrite B. simpl skipn.
    pose proof (count_char_firstn newline (m_start m) content). lia. }
  split; [exact B|]. destruct is_swift; eexists; (split; [reflexivity|]);
    apply Forall_forall; intros info Hin; apply in_map_iff in Hin as [m [<- _]];
    simpl; (split; [apply L | rewrite B; lia]).
Qed.

(** ** The pattern matcher *)

Lemma app_length_sub {A} (w s : list A) : length (w ++ s) - length s = length w.
Proof. rewrite length_app. lia. Qed.

Lemma star_cls_sound {A} (p : ascii -> bool) (s : str) (k : str -> option A) (x : A) :
  star_cls p s k = Some x ->
  exists w s', s = w ++ s' /\ Forall (fun c => p c = true) w /\ k s' = Some x.
Proof.
  induction s as [|c s IH]; simpl.
  - intros H. now exists [], [].
  - destruct (p c) eqn:Pc.
    + destruct (star_cls p s k) as [r|] eqn:E.
      * intros [= ->]. destruct (IH eq_refl) as [w [s' [-> [F K]]]].
        exists (c :: w), s'. repeat split; trivial. now constructor.
      * intros H. now exists [], (c :: s).
    + intros H. now exists [], (c :: s).
Qed.

(** Whatever the matcher reports is licensed by the pattern. *)
Lemma rmatch_sound {A} (r : regex) :
  forall (s : str) (caps : captures) (k : str -> captures -> option A) (x : A),
    rmatch r s caps k = Some x ->
    exists w s' caps',
      s = w ++ s' /\ matches r w caps caps' /\ k s' caps' = Some x.
Proof.
  induction r as [l | p | p | r1 IH1 r2 IH2 | r1 IH1 | r1 IH1 r2 IH2 | n r1 IH1];
    intros s caps k x; simpl.
  - destruct (startswith s l) eqn:E; [|discriminate].
    apply startswith_app in E as [post ->]. intros H.
    exists l, post, caps. repeat split; [constructor|].
    rewrite skipn_app, skipn_all, Nat.sub_diag in H. exact H.
  - destruct s as [|c s]; [discriminate|].
    destruct (p c) eqn:Pc; [|discriminate]. intros H.
    exists [c], s, caps. repeat split; [now constructor | assumption].
  - intros H. apply star_cls_sound in H as [w [s' [-> [F K]]]].
    exists w, s', caps. repeat split; [now constructor | assumption].
  - intros H. apply IH1 in H as [w1 [s1 [caps1 [-> [M1 H]]]]].
    apply IH2 in H as [w2 [s2 [caps2 [-> [M2 H]]]]].
    exists (w1 ++ w2), s2, caps2. rewrite app_assoc.
    repeat split; [econstructor; eassumption | assumption].
  - destruct (rmatch r1 s caps k) as [y|] eqn:E.
    + intros [= ->]. apply IH1 in E as [w [s' [caps' [-> [M K]]]]].
      exists w, s', caps'.
      split; [reflexivity|]. split; [now apply matches_Opt_taken | assumption].
    + intros H. exists [], s, caps.
      split; [reflexivity|]. split; [apply matches_Opt_skipped | assumption].
  - destruct (rmatch r1 s caps k) as [y|] eqn:E.
    + intros [= ->]. apply IH1 in E as [w [s' [caps' [-> [M K]]]]].
      exists w, s', caps'. repeat split; [now apply matches_Alt_left | assumption].
    + intros H. apply IH2 in H as [w [s' [caps' [-> [M K]]]]].
      exists w, s', caps'. repeat split; [now apply matches_Alt_right | assumption].
  - intros H. apply IH1 in H as [w [s' [caps' [-> [M K]]]]].
    rewrite app_length_sub, firstn_app, firstn_all, Nat.sub_diag in K.
    simpl in K. rewrite app_nil_r in K.
    exists w, s', ((n, w) :: caps'). repeat split; [now constructor | assumption].
Qed.

Lemma match_at_sound (r : regex) (s : str) (pos : nat) (m : re_match) :
  match_at r s pos = Some m ->
  exists w s',
    s = w ++ s' /\ matches r w [] (m_groups m) /\
    m_start m = pos /\ m_end m = pos + length w.
Proof.
  unfold match_at. intros H.
  apply rmatch_sound in H as [w [s' [caps' [-> [M [= <-]]]]]].
  exists w, s'. simpl. rewrite app_length_sub. auto.
Qed.

Lemma finditer_from_In (r : regex) (s : str) :
  forall (pos skip : nat) (m : re_match),
    In m (finditer_from r s pos skip) ->
    exists j, j <= length s /\ match_at r (skipn j s) (pos + j) = Some m.
Proof.
  induction s as [|c s IH]; intros pos skip m.
  - destruct skip; simpl; [|contradiction].
    destruct (match_at r [] pos) as [m0|] eqn:E; [|contradiction].
    intros [<- | []]. exists 0. rewrite Nat.add_0_r. auto.
  - assert (Tail : forall sk, In m (finditer_from r s (S pos) sk) ->
               exists j, j <= length (c :: s) /\
                         match_at r (skipn j (c :: s)) (pos + j) = Some m).
    { intros sk H. apply IH in H as [j [L H]]. exists (S j). simpl.
      replace (pos + S j) with (S pos + j) by lia. split; [lia | assumption]. }
    destruct skip; simpl; [|apply Tail].
    destruct (match_at r (c :: s) pos) as [m0|] eqn:E; [|apply Tail].
    intros [<- | H]; [|now apply Tail in H].
    exists 0. rewrite Nat.add_0_r. simpl. split; [lia | assumption].
Qed.

(** Every match of [finditer] is a text that the pattern licenses, found
    at its start position. *)
Lemma finditer_sound (r : regex) (content : str) (m : re_match) :
  In m (finditer r content) ->
  exists w rest,
    skipn (m_start m) content = w ++ rest /\
    matches r w [] (m_groups m) /\
    m_end m = m_start m + length w.
Proof.
  intros H. apply finditer_from_In in H as [j [_ H]]. simpl in H.
  apply match_at_sound in H as [w [s' [E [M [S' En]]]]].
  exists w, s'. rewrite S'. auto.
Qed.

Lemma finditer_from_order (r : regex) (s : str) :
  forall pos skip,
    StronglySorted in_order (finditer_from r s pos skip) /\
    Forall (fun m => pos + skip <= m_start m /\ m_start m <= m_end m /\
                     m_end m <= pos + length s)
           (finditer_from r s pos skip).
Proof.
  induction s as [|c s IH]; intros pos skip.
  - destruct skip; simpl; [|split; constructor].
    destruct (match_at r [] pos) as [m|] eqn:E; [|split; constructor].
    unfold match_at in E. apply rmatch_sound in E as [w [s' [caps' [Es [_ [= <-]]]]]].
    simpl. split; repeat constructor; simpl; lia.
  - assert (Tail : forall sk,
               Forall (fun m => pos + S sk <= m_start m /\ m_start m <= m_end m /\
                                m_end m <= pos + length (c :: s))
                      (finditer_from r s (S pos) sk)).
    { intros sk. destruct (IH (S pos) sk) as [_ F].
      eapply Forall_impl; [|exact F]. simpl. intros m. lia. }
    destruct skip; simpl finditer_from.
    + destruct (match_at r (c :: s) pos) as [m|] eqn:E.
      * apply match_at_sound in E as [w [s' [Es [_ [Hs He]]]]].
        apply (f_equal (@length ascii)) in Es. rewrite length_app in Es.
        change (length (c :: s)) with (S (length s)) in *.
        destruct (IH (S pos) (m_end m - pos - 1)) as [S0 F0]. split.
        -- constructor; [assumption|].
           eapply Forall_impl; [|exact F0]. unfold in_order. cbv beta.
           intros a. lia.
        -- constructor; [lia|].
           eapply Forall_impl; [|exact F0]. cbv beta. intros a. lia.
      * destruct (IH (S pos) 0) as [S0 _]. split; [assumption|].
        eapply Forall_impl; [|exact (Tail 0)]. simpl. intros m. lia.
    + destruct (IH (S pos) skip) as [S0 _]. split; [assumption|].
      eapply Forall_impl; [|exact (Tail skip)]. simpl. intros m. lia.
Qed.

(** The matches that [finditer] reports lie within the text, come in
    text order and do not overlap: each one starts at or after the end of
    the one before it, and strictly after its start. *)
Lemma finditer_in_order (r : regex) (content : str) :
  StronglySorted in_order (finditer r content) /\
  Forall (fun m => m_start m <= m_end m <= length content) (finditer r content).
Proof.
  destruct (finditer_from_order r content 0 0) as [S0 F]. split; [assumption|].
  eapply Forall_impl; [|exact F]. simpl. intros m. lia.
Qed.

Lemma StronglySorted_map {A B} (R : A -> A -> Prop) (R' : B -> B -> Prop)
    (f : A -> B) (l : list A) :
  (forall a b, R a b -> R' (f a) (f b)) ->
  StronglySorted R l -> StronglySorted R' (map f l).
Proof.
  intros HR. induction 1 as [|a l S0 IH F]; simpl; constructor; [assumption|].
  apply Forall_forall. intros b Hb. apply in_map_iff in Hb as [x [<- Hx]].
  apply HR. rewrite Forall_forall in F. now apply F.
Qed.

Lemma line_start_monotone (content : str) (a b : re_match) :
  m_start a <= m_start b -> line_start content a <= line_start content b.
Proof.
  intros H. unfold line_start, slice. simpl skipn.
  replace (firstn (m_start a) content)
    with (firstn (m_start a) (firstn (m_start b) content)).
  - pose proof (count_char_firstn newline (m_start a) (firstn (m_start b) content)).
    lia.
  - rewrite firstn_firstn. f_equal. lia.
Qed.

(** X13.  The records of a file come in the order of the text: their
    line numbers never decrease along the list. *)
Theorem X13_records_in_source_order (content : str) (is_swift : bool) :
  exists methods,
    extract_detailed_test_methods (Returned content) is_swift = Returned methods /\
    StronglySorted le (map MappingReport.line_of methods).
Proof.
  assert (G : forall r,
             StronglySorted le (map (line_start content) (finditer r content))).
  { intros r. destruct (finditer_from_order r content 0 0) as [S0 _].
    fold (finditer r content) in S0.
    eapply StronglySorted_map; [|exact S0].
    intros a b [_ H]. apply line_start_monotone. lia. }
  destruct is_swift; eexists; (split; [reflexivity|]); rewrite map_map; apply G.
Qed.

(** ** The declaration patterns *)

Ltac invert_matches :=
  repeat match goal with
         | H : matches (Lit _) _ _ _ |- _ => inversion H; subst; clear H
         | H : matches (Cls _) _ _ _ |- _ => inversion H; subst; clear H
         | H : matches (Star _) _ _ _ |- _ => inversion H; subst; clear H
         | H : matches (Cat _ _) _ _ _ |- _ => inversion H; subst; clear H
         | H : matches (Opt _) _ _ _ |- _ => inversion H; subst; clear H
         | H : matches (Alt _ _) _ _ _ |- _ => inversion H; subst; clear H
         | H : matches (Group _ _) _ _ _ |- _ => inversion H; subst; clear H
         end.

Lemma ends_with_app (a w : str) (c : ascii) : ends_with w c -> ends_with (a ++ w) c.
Proof. intros [pre ->]. exists (a ++ pre). now rewrite app_assoc. Qed.

Lemma ends_with_last (w : str) (c : ascii) : ends_with (w ++ [c]) c.
Proof. now exists w. Qed.

(** What the Swift declaration pattern licenses: the captured name is
    "test" followed by at least one word character, and the text ends
    with the opening brace. *)
Lemma swift_pattern_shape (w : str) (caps : captures) :
  matches swift_pattern w [] caps ->
  (exists c tail,
      group 1 caps = $"test" ++ c :: tail /\
      Forall (fun x => is_word x = true) (c :: tail)) /\
  ends_with w "{".
Proof.
  unfold swift_pattern, seq, Plus. intros H. invert_matches;
    (split;
     [ eexists; eexists; split; [reflexivity | now constructor]
     | repeat apply ends_with_app; now exists [] ]).
Qed.

Lemma startswith_lower_test (x : str) : startswith (lower ($"test" ++ x)) $"test" = true.
Proof.
  apply startswith_app. exists (lower x). unfold lower. now rewrite map_app.
Qed.

Lemma nth_error_last_of_match (content w rest : str) (c : ascii) (start : nat) :
  skipn start content = w ++ rest -> ends_with w c ->
  nth_error content (start + length w - 1) = Some c /\ 0 < length w.
Proof.
  intros E [pre ->]. rewrite length_app. simpl. split; [|lia].
  replace (start + (length pre + 1) - 1) with (start + length pre) by lia.
  rewrite <- nth_error_skipn, E, <- app_assoc.
  rewrite nth_error_app2 by lia. now rewrite Nat.sub_diag.
Qed.

(** X14.  Every Swift declaration that is found has a name made of
    "test" and at least one more word character (so its lower-cased name
    starts with "test"), and the last character of the declaration, where
    the brace count starts, is the opening brace. *)
Theorem X14_swift_declarations (content : str) (m : re_match) :
  In m (finditer swift_pattern content) ->
  (exists c tail,
      sw_name (swift_test_info content m) = $"test" ++ c :: tail /\
      Forall (fun x => is_word x = true) (c :: tail)) /\
  startswith (lower (sw_name (swift_test_info content m))) $"test" = true /\
  nth_error content (m_end m - 1) = Some "{"%char /\
  m_start m < m_end m.
Proof.
  intros H. apply finditer_sound in H as [w [rest [E [M En]]]].
  apply swift_pattern_shape in M as [[c [tail [G F]]] L].
  destruct (nth_error_last_of_match _ _ _ _ _ E L) as [N P].
  cbn [swift_test_info sw_name]. rewrite G, En.
  split; [now exists c, tail|]. split; [apply startswith_lower_test|].
  split; [assumption | lia].
Qed.

Lemma X14_swift_declarations_witness :
  nth_error $"func testX() { b()" 13 = Some "{"%char.
Proof.
  destruct (X14_swift_declarations $"func testX() { b()"
              (mk_re_match 0 14 [(1, $"testX")])) as [_ [_ [H _]]].
  - vm_compute. now left.
  - exact H.
Defined.

(** What the C# declaration pattern licenses. *)
Lemma csharp_pattern_shape (w : str) (caps : captures) :
  matches csharp_pattern w [] caps ->
  (group 1 caps = $"Task" \/ group 1 caps = $"void" \/
   group 1 caps = $"IEnumerator") /\
  (exists a b,
      group 2 caps = a ++ $"Test" ++ b /\
      Forall (fun x => is_word x = true) a /\
      Forall (fun x => is_word x = true) b) /\
  (exists rest, w = "["%char :: rest) /\
  ends_with w ")".
Proof.
  unfold csharp_pattern, seq, Plus. intros H. invert_matches;
    (split; [simpl; tauto|]);
    (split; [eexists; eexists; split; [reflexivity | now split]|]);
    (split; [eexists; reflexivity|]);
    repeat apply ends_with_app; now exists [].
Qed.

(** X15.  Every C# declaration that is found starts at the opening
    bracket of its attribute, has the return type [Task], [void] or
    [IEnumerator], and has a name of word characters that contains
    "Test". *)
Theorem X15_csharp_declarations (content : str) (m : re_match) :
  In m (finditer csharp_pattern content) ->
  let info := csharp_test_info content m in
  (cs_return_type info = $"Task" \/ cs_return_type info = $"void" \/
   cs_return_type info = $"IEnumerator") /\
  (exists a b,
      cs_name info = a ++ $"Test" ++ b /\
      Forall (fun x => is_word x = true) a /\
      Forall (fun x => is_word x = true) b) /\
  nth_error content (m_start m) = Some "["%char.
Proof.
  intros H. apply finditer_sound in H as [w [rest [E [M En]]]].
  apply csharp_pattern_shape in M as [R [N [[tl ->] _]]].
  cbn zeta. cbn [csharp_test_info cs_return_type cs_name].
  split; [assumption|]. split; [assumption|].
  rewrite <- (Nat.add_0_r (m_start m)), <- nth_error_skipn, E. reflexivity.
Qed.

Lemma X15_csharp_declarations_witness :
  nth_error $"[Test] public void TestA() { }" 0 = Some "["%char.
Proof.
  destruct (X15_csharp_declarations $"[Test] public void TestA() { }"
              (mk_re_match 0 26 [(2, $"TestA"); (1, $"void")])) as [_ [_ H]].
  - vm_compute. now left.
  - exact H.
Defined.

(** ** The coverage analyzer's own extraction *)

Import MappingReport CoverageReport.

Lemma swift_names_pattern_shape (w : str) (caps : captures) :
  matches swift_names_pattern w [] caps ->
  exists c tail,
    group 1 caps = $"test" ++ c :: tail /\
    Forall (fun x => is_word x = true) (c :: tail).
Proof.
  unfold swift_names_pattern, seq, Plus. intros H. invert_matches;
    (eexists; eexists; split; [reflexivity | now constructor]).
Qed.

Lemma csharp_names_pattern_shape (w : str) (caps : captures) :
  matches csharp_names_pattern w [] caps ->
  exists a b,
    group 1 caps = a ++ $"Test" ++ b /\
    Forall (fun x => is_word x = true) a /\
    Forall (fun x => is_word x = true) b.
Proof.
  unfold csharp_names_pattern, seq, Plus. intros H. invert_matches;
    (eexists; eexists; split; [reflexivity | now split]).
Qed.

(** X16.  The coverage analyzer's extraction gives no name for a file
    that cannot be read.  Every name it gives starts with "test" when
    letter case is ignored.  For a Swift file the final filter drops
    nothing, since every captured name starts with "test"; for a C# file
    every name that is kept contains "Test". *)
Theorem X16_extract_test_methods (content : str) :
  (forall is_swift, extract_test_methods Raised is_swift = []) /\
  (forall is_swift n,
      In n (extract_test_methods (Returned content) is_swift) ->
      startswith (lower n) $"test" = true) /\
  extract_test_methods (Returned content) true
    = findall swift_names_pattern content /\
  (forall n,
      In n (extract_test_methods (Returned content) false) ->
      exists a b, n = a ++ $"Test" ++ b).
Proof.
  split; [reflexivity|]. split; [|split].
  - intros is_swift n H. unfold extract_test_methods in H.
    now apply filter_In in H.
  - unfold extract_test_methods. apply filter_all. intros n H.
    unfold findall in H. apply in_map_iff in H as [m [<- H]].
    apply finditer_sound in H as [w [rest [_ [M _]]]].
    apply swift_names_pattern_shape in M as [c [tail [-> _]]].
    apply startswith_lower_test.
  - intros n H. unfold extract_test_methods in H.
    apply filter_In in H as [H _]. unfold findall in H.
    apply in_map_iff in H as [m [<- H]].
    apply finditer_sound in H as [w [rest [_ [M _]]]].
    apply csharp_names_pattern_shape in M as [a [b [-> _]]]. now exists a, b.
Qed.

Lemma X16_extract_test_methods_witness :
  startswith (lower $"testA") $"test" = true.
Proof.
  destruct (X16_extract_test_methods $"func testA() { }") as [_ [H _]].
  apply (H true). vm_compute. now left.
Defined.

(** ** Categories *)

Lemma first_category_spec (cat_keys : list str) (lowered k : str) :
  first_category cat_keys lowered = k <->
  first_such (fun key => substring key lowered) k cat_keys \/
  (k = $"other" /\ Forall (fun key => ~ substring key lowered) cat_keys).
Proof.
  unfold first_such. revert k. induction cat_keys as [|key rest IH]; intros k; simpl.
  - split.
    + intros <-. right. split; [reflexivity | constructor].
    + intros [[[|? ?] [after [H _]]] | [-> _]]; try discriminate. reflexivity.
  - destruct (contains lowered key) eqn:E.
    + apply contains_substring in E. split.
      * intros <-. left. exists [], rest. repeat split; [assumption | constructor].
      * intros [[[|x before] [after [H [Hk Hb]]]] | [_ Hn]].
        -- now injection H as ->.
        -- injection H as -> ->. inversion Hb; subst. contradiction.
        -- inversion Hn; subst. contradiction.
    + assert (N : ~ substring key lowered).
      { intros H. apply contains_substring in H. congruence. }
      rewrite IH. split.
      * intros [[before [after [-> [Hk Hb]]]] | [-> Hn]].
        -- left. exists (key :: before), after. repeat split; trivial.
           now constructor.
        -- right. split; [reflexivity | now constructor].
      * intros [[[|x before] [after [H [Hk Hb]]]] | [-> Hn]].
        -- injection H as -> ->. contradiction.
        -- injection H as -> ->. inversion Hb; subst. left. now exists before, after.
        -- right. split; [reflexivity | now inversion Hn].
Qed.

(** X17.  A path is put in the category of the first keyword of the
    list contract, crypto, protocol, script, serialization, transaction,
    types, wallet, witnessrule, helpers, core that occurs in the
    lower-cased path, and in "other" exactly when none of them occurs. *)
Theorem X17_category_of (file_path k : str) :
  category_of file_path = k <->
  first_such (fun key => substring key (lower file_path)) k categories \/
  (k = $"other" /\
   Forall (fun key => ~ substring key (lower file_path)) categories).
Proof. apply first_category_spec. Qed.

Lemma count_methods_sum (files : tests) :
  count_methods files = list_sum (map (@length str) (values files)).
Proof.
  unfold count_methods, values. induction files as [|[f m] files IH]; simpl; auto.
Qed.

Lemma sum_dict_set {V} (g : V -> nat) (d : dict V) (k : str) (v : V) :
  list_sum (map g (values (dict_set d k v)))
  + match dict_get d k with Some old => g old | None => 0 end
  = list_sum (map g (values d)) + g v.
Proof.
  induction d as [|[k' v'] d IH]; simpl; [lia|].
  destruct (str_eqb k k'); simpl; lia.
Qed.

Lemma count_methods_app (a b : tests) :
  count_methods (a ++ b) = count_methods a + count_methods b.
Proof.
  rewrite !count_methods_sum. unfold values. now rewrite !map_app, list_sum_app.
Qed.

Lemma dict_get_fresh {V} (d : dict V) (k : str) :
  ~ In k (keys d) -> dict_get d k = None.
Proof.
  intros H. destruct (dict_get d k) as [v|] eqn:E; [|reflexivity].
  exfalso. apply H. apply dict_get_keys. now exists v.
Qed.

Lemma dict_set_fresh_length {V} (d : dict V) (k : str) (v : V) :
  ~ In k (keys d) -> length (dict_set d k v) = S (length d).
Proof.
  induction d as [|[k' v'] d IH]; simpl; intros H; [reflexivity|].
  destruct (str_eqb k k') eqn:E.
  - apply str_eqb_eq in E. subst. tauto.
  - simpl. rewrite IH; tauto.
Qed.

Lemma fresh_in_category (categorized : dict tests) (done : tests)
    (f0 category : str) (files : tests) :
  categorized_from categorized done -> ~ In f0 (keys done) ->
  dict_get categorized category = Some files -> ~ In f0 (keys files).
Proof.
  intros [Hfiles _] Hfresh G H. unfold keys in H.
  apply in_map_iff in H as [[f m] [E Hin]]. simpl in E. subst f.
  apply (Hfiles _ _ G) in Hin as [Hin _]. apply Hfresh.
  unfold keys. apply in_map_iff. now exists (f0, m).
Qed.

(** The per-category sums of [categorize_tests] are the sums of the
    whole dictionary. *)
Lemma categorize_tests_sums (test_dict : tests) :
  NoDup (keys test_dict) ->
  list_sum (map count_methods (values (categorize_tests test_dict)))
    = count_methods test_dict /\
  list_sum (map (@length (str * list str)) (values (categorize_tests test_dict)))
    = length test_dict.
Proof.
  unfold categorize_tests.
  assert (G : forall l acc done,
             NoDup (keys (done ++ l)) ->
             categorized_from acc done ->
             list_sum (map count_methods (values acc)) = count_methods done /\
             list_sum (map (@length (str * list str)) (values acc)) = length done ->
             list_sum (map count_methods (values (fold_left categorize_step l acc)))
               = count_methods (done ++ l) /\
             list_sum (map (@length (str * list str))
                           (values (fold_left categorize_step l acc)))
               = length (done ++ l)).
  { induction l as [|[f0 m0] l IH]; intros acc done N Hacc [Hc Hl].
    - rewrite app_nil_r. auto.
    - simpl fold_left.
      replace (done ++ (f0, m0) :: l) with ((done ++ [(f0, m0)]) ++ l)
        by now rewrite <- app_assoc.
      assert (Hfresh : ~ In f0 (keys done)).
      { unfold keys in N. rewrite map_app in N. simpl in N.
        apply NoDup_remove_2 in N. intros H. apply N. apply in_or_app. now left. }
      apply IH; [now rewrite <- app_assoc | now apply categorize_step_from |].
      unfold categorize_step. simpl fst. simpl snd.
      set (c0 := category_of f0).
      pose proof (@sum_dict_set tests count_methods acc c0
                    (dict_set match dict_get acc c0 with
                              | Some files => files
                              | None => []
                              end f0 m0)) as Sc.
      pose proof (@sum_dict_set tests (@length (str * list str)) acc c0
                    (dict_set match dict_get acc c0 with
                              | Some files => files
                              | None => []
                              end f0 m0)) as Sl.
      rewrite count_methods_app, length_app. simpl length.
      replace (count_methods [(f0, m0)]) with (length m0)
        by (unfold count_methods; simpl; lia).
      destruct (dict_get acc c0) as [files0|] eqn:E.
      + pose proof (fresh_in_category _ _ _ _ _ Hacc Hfresh E) as Hnew.
        rewrite (dict_set_fresh_length _ _ _ Hnew) in Sl.
        pose proof (sum_dict_set (@length str) files0 f0 m0) as Sm.
        rewrite (dict_get_fresh _ _ Hnew) in Sm.
        rewrite <- !count_methods_sum in Sm.
        unfold tests, dict in *. split; lia.
      + cbn [dict_set length] in Sc, Sl |- *.
        change (count_methods [(f0, m0)]) with (length m0 + 0) in Sc.
        unfold tests, dict in *. split; lia. }
  intros N. apply (G test_dict [] []); [assumption | | split; reflexivity].
  split; [discriminate | contradiction].
Qed.

(** X18.  Putting the files into categories loses and duplicates
    nothing: the method counts of the categories add up to the method
    count of all files, and the file counts of the categories to the
    number of files. *)
Theorem X18_category_totals (test_dict : tests) :
  NoDup (keys test_dict) ->
  list_sum (map count_methods (values (categorize_tests test_dict)))
    = count_methods test_dict /\
  list_sum (map (@length (str * list str)) (values (categorize_tests test_dict)))
    = length test_dict.
Proof. apply categorize_tests_sums. Qed.

Lemma X18_category_totals_witness :
  list_sum (map count_methods
              (values (categorize_tests
                         [($"crypto/ATests.swift", [$"testA"; $"testB"]);
                          ($"wallet/BTests.swift", [$"testC"])])))
  = 3.
Proof.
  destruct (X18_category_totals
              [($"crypto/ATests.swift", [$"testA"; $"testB"]);
               ($"wallet/BTests.swift", [$"testC"])]) as [H _].
  - apply NoDup_cons; [intros [H | []]; discriminate|].
    apply NoDup_cons; [intros [] | apply NoDup_nil].
  - rewrite H. reflexivity.
Defined.

(** ** Missing categories and enhancements *)

Lemma all_methods_trivial (d : tests) : all_methods (fun _ => True) d.
Proof. unfold all_methods. apply Forall_forall. trivial. Qed.

Lemma categorize_tests_get (test_dict : tests) (category : str) (files : tests) :
  In (category, files) (categorize_tests test_dict) <->
  dict_get (categorize_tests test_dict) category = Some files.
Proof.
  destruct (categorize_tests_inv _ _ (all_methods_trivial test_dict)) as [N _].
  split; [now apply dict_get_unique | apply dict_get_In].
Qed.

Lemma status_missing (sc cc : dict tests) (category : str) :
  category_status sc cc category = MISSING <-> files_of cc category = [].
Proof.
  unfold category_status.
  destruct (files_of cc category) as [|x l]; simpl.
  - rewrite andb_false_r. split; reflexivity.
  - rewrite andb_true_r.
    destruct (count_methods (files_of sc category) <=? count_methods (x :: l));
      split; discriminate.
Qed.

Lemma missing_categories_In (swift_tests csharp_tests : tests) (e : missing_category) :
  In e (missing_categories (find_missing_coverage swift_tests csharp_tests)) <->
  exists files,
    dict_get (categorize_tests swift_tests) (mc_category e) = Some files /\
    dict_get (categorize_tests csharp_tests) (mc_category e) = None /\
    e = mk_missing_category (mc_category e) (keys files) (count_methods files).
Proof.
  unfold find_missing_coverage. cbn [missing_categories]. rewrite in_flat_map. split.
  - intros [[cat files] [Hin He]]. simpl in He.
    destruct (dict_get (categorize_tests csharp_tests) cat) eqn:E; [contradiction|].
    destruct He as [<- | []]. simpl. exists files.
    split; [now apply categorize_tests_get|]. auto.
  - intros [files [Hs [Hc He]]]. exists (mc_category e, files).
    split; [now apply categorize_tests_get|]. simpl. rewrite Hc. left. now symmetry.
Qed.

(** X19.  A category of the report is headed MISSING exactly when the
    missing-coverage analysis lists it among the missing categories.
    Such an entry carries all reference files of the category and their
    method count, and no file of a missing category is listed as a missing
    file as well. *)
Theorem X19_missing_categories (swift_tests csharp_tests : tests) :
  let swift_categorized := categorize_tests swift_tests in
  let csharp_categorized := categorize_tests csharp_tests in
  let mc := find_missing_coverage swift_tests csharp_tests in
  (forall category,
      In category (all_categories swift_categorized csharp_categorized) ->
      (category_status swift_categorized csharp_categorized category = MISSING <->
       In category (map mc_category (missing_categories mc)))) /\
  (forall e,
      In e (missing_categories mc) ->
      mc_files e = keys (files_of swift_categorized (mc_category e)) /\
      mc_test_count e = count_methods (files_of swift_categorized (mc_category e))) /\
  (forall mf,
      In mf (missing_files mc) ->
      ~ In (mf_category mf) (map mc_category (missing_categories mc))).
Proof.
  cbn zeta. split; [|split].
  - intros category Hin. rewrite status_missing, files_of_empty, in_map_iff.
    unfold all_categories in Hin. apply set_of_In, in_app_or in Hin. split.
    + intros Hn. destruct Hin as [Hin | Hin]; [|contradiction].
      apply dict_get_keys in Hin as [files Hs].
      exists (mk_missing_category category (keys files) (count_methods files)).
      split; [reflexivity|]. apply missing_categories_In. exists files. simpl.
      split; [assumption|]. split; [now apply dict_get_fresh | reflexivity].
    + intros [e [<- He]]. apply missing_categories_In in He as [files [_ [Hc _]]].
      intros H. apply dict_get_keys in H as [v Hv]. congruence.
  - intros e He. apply missing_categories_In in He as [files [Hs [_ ->]]].
    simpl. unfold files_of. simpl in Hs. now rewrite Hs.
  - intros mf Hmf Hin. apply in_map_iff in Hin as [e [Ee He]].
    apply missing_categories_In in He as [_ [_ [Hc _]]].
    unfold find_missing_coverage in Hmf. cbn [missing_files] in Hmf.
    apply in_flat_map in Hmf as [[cat sf] [_ Hmf]]. simpl in Hmf.
    destruct (dict_get (categorize_tests csharp_tests) cat) as [cf|] eqn:E;
      [|contradiction].
    apply missing_in_category_category in Hmf. congruence.
Qed.

Lemma X19_missing_categories_witness :
  category_status (categorize_tests [($"wallet/WTests.swift", [$"testW"])])
                  (categorize_tests [($"Crypto/CTests.cs", [$"TestC"])])
                  $"wallet" = MISSING.
Proof.
  destruct (X19_missing_categories [($"wallet/WTests.swift", [$"testW"])]
              [($"Crypto/CTests.cs", [$"TestC"])]) as [H _].
  apply H; vm_compute; tauto.
Defined.

Lemma enhancements_In (swift_tests csharp_tests : tests) (e : enhancement) :
  In e (c_sharp_enhancements (find_missing_coverage swift_tests csharp_tests)) <->
  exists swift_files csharp_files,
    dict_get (categorize_tests swift_tests) (en_category e) = Some swift_files /\
    dict_get (categorize_tests csharp_tests) (en_category e) = Some csharp_files /\
    count_methods swift_files < count_methods csharp_files /\
    e = mk_enhancement (en_category e)
          (count_methods swift_files) (count_methods csharp_files)
          (py_round (if 0 <? count_methods swift_files
                     then Fin (ratio (count_methods csharp_files)
                                     (count_methods swift_files))
                     else Inf) 2).
Proof.
  unfold find_missing_coverage. cbn [c_sharp_enhancements]. rewrite in_flat_map.
  split.
  - intros [[cat cf] [Hin He]]. unfold enhancement_of in He. simpl in He.
    destruct (dict_get (categorize_tests swift_tests) cat) as [sf|] eqn:E;
      [|contradiction].
    destruct (count_methods sf <? count_methods cf) eqn:L; [|contradiction].
    destruct He as [<- | []]. simpl. exists sf, cf.
    apply Nat.ltb_lt in L. apply categorize_tests_get in Hin. auto.
  - intros [sf [cf [Hs [Hc [L He]]]]]. exists (en_category e, cf).
    split; [now apply categorize_tests_get|].
    unfold enhancement_of. simpl. rewrite Hs.
    apply Nat.ltb_lt in L. rewrite L. left. now symmetry.
Qed.

(** X20.  A category is listed as a C# enhancement exactly when both
    suites have it and its target methods outnumber its reference
    methods; the entry carries the two counts, and such a category is
    always headed COMPLETE in the report. *)
Theorem X20_enhancements (swift_tests csharp_tests : tests) :
  let swift_categorized := categorize_tests swift_tests in
  let csharp_categorized := categorize_tests csharp_tests in
  let mc := find_missing_coverage swift_tests csharp_tests in
  (forall category,
      In category (map en_category (c_sharp_enhancements mc)) <->
      In category (keys swift_categorized) /\
      In category (keys csharp_categorized) /\
      count_methods (files_of swift_categorized category)
        < count_methods (files_of csharp_categorized category)) /\
  (forall e,
      In e (c_sharp_enhancements mc) ->
      en_swift_tests e = count_methods (files_of swift_categorized (en_category e)) /\
      en_csharp_tests e = count_methods (files_of csharp_categorized (en_category e)) /\
      category_status swift_categorized csharp_categorized (en_category e) = COMPLETE).
Proof.
  cbn zeta. split.
  - intros category. rewrite in_map_iff. unfold files_of. split.
    + intros [e [<- He]]. apply enhancements_In in He as [sf [cf [Hs [Hc [L _]]]]].
      rewrite Hs, Hc. repeat split; trivial; apply dict_get_keys; eauto.
    + intros [Hs [Hc L]]. apply dict_get_keys in Hs as [sf Hs].
      apply dict_get_keys in Hc as [cf Hc]. rewrite Hs, Hc in L.
      exists (mk_enhancement category
                (count_methods sf) (count_methods cf)
                (py_round (if 0 <? count_methods sf
                           then Fin (ratio (count_methods cf) (count_methods sf))
                           else Inf) 2)).
      split; [reflexivity|]. apply enhancements_In. exists sf, cf. simpl. auto.
  - intros e He. apply enhancements_In in He as [sf [cf [Hs [Hc [L ->]]]]].
    simpl in *. unfold category_status, files_of. rewrite Hs, Hc.
    split; [reflexivity|]. split; [reflexivity|].
    destruct (categorize_tests_inv _ _ (all_methods_trivial csharp_tests)) as [_ Hv].
    destruct (dict_get_value _ _ _ _ Hv Hc) as [Hne _].
    replace (count_methods sf <=? count_methods cf) with true
      by (symmetry; apply Nat.leb_le; lia).
    destruct cf; [congruence | reflexivity].
Qed.

Lemma X20_enhancements_witness :
  category_status (categorize_tests [($"crypto/ATests.swift", [$"testA"])])
                  (categorize_tests [($"Crypto/ATests.cs", [$"TestA"; $"TestB"])])
                  $"crypto" = COMPLETE.
Proof.
  destruct (X20_enhancements [($"crypto/ATests.swift", [$"testA"])]
              [($"Crypto/ATests.cs", [$"TestA"; $"TestB"])]) as [_ H].
  apply (H (mk_enhancement $"crypto" 1 2 (Fin 2))). vm_compute. now left.
Defined.

(** ** File identifiers *)

Lemma split_no_sep (sep : ascii) (s : str) : ~ In sep s -> split sep s = [s].
Proof.
  induction s as [|c s IH]; intros H; [reflexivity|]. simpl.
  destruct (Ascii.eqb c sep) eqn:E.
  - apply Ascii.eqb_eq in E. exfalso. apply H. now left.
  - rewrite IH; [reflexivity|]. intros K. apply H. now right.
Qed.

Lemma split_app_sep (sep : ascii) (a b : str) :
  split sep (a ++ sep :: b) = split sep a ++ split sep b.
Proof.
  induction a as [|c a IH]; simpl.
  - now rewrite Ascii.eqb_refl.
  - destruct (Ascii.eqb c sep); [now rewrite IH|].
    rewrite IH. pose proof (split_nonempty sep a) as Hne.
    destruct (split sep a); [congruence | reflexivity].
Qed.

Lemma last_app_nonempty {A} (a b : list A) (d : A) :
  b <> [] -> last (a ++ b) d = last b d.
Proof.
  intros Hb. induction a as [|x a IH]; [reflexivity|].
  simpl. destruct (a ++ b) eqn:E; [|exact IH].
  apply app_eq_nil in E as [_ E]. congruence.
Qed.

Lemma path_name_plain (name : str) : ~ In "/"%char name -> path_name name = name.
Proof. intros H. unfold path_name. now rewrite split_no_sep. Qed.

Lemma path_name_dir (dir name : str) :
  ~ In "/"%char name -> path_name (dir ++ "/"%char :: name) = name.
Proof.
  intros H. unfold path_name.
  rewrite split_app_sep, last_app_nonempty by apply split_nonempty.
  now rewrite split_no_sep.
Qed.

Lemma rfind_from_absent (c : ascii) (s : str) (i : nat) :
  ~ In c s -> rfind_from c s i = None.
Proof.
  revert i. induction s as [|x s IH]; intros i H; [reflexivity|]. simpl.
  rewrite IH by (intros K; apply H; now right).
  destruct (Ascii.eqb x c) eqn:E; [|reflexivity].
  apply Ascii.eqb_eq in E. exfalso. apply H. now left.
Qed.

Lemma rfind_from_last (c : ascii) (a b : str) (i : nat) :
  ~ In c b -> rfind_from c (a ++ c :: b) i = Some (i + length a).
Proof.
  intros H. revert i. induction a as [|x a IH]; intros i; simpl.
  - rewrite rfind_from_absent by assumption. rewrite Ascii.eqb_refl.
    f_equal. lia.
  - rewrite IH. f_equal. lia.
Qed.

(** The stem of [base.ext] is [base]. *)
Lemma path_stem_ext (dir_slash base ext : str) :
  (dir_slash = [] \/ exists dir, dir_slash = dir ++ ["/"%char]) ->
  ~ In "/"%char base -> ~ In "/"%char ext -> ~ In "."%char ext ->
  base <> [] -> ext <> [] ->
  path_stem (dir_slash ++ base ++ "."%char :: ext) = base.
Proof.
  intros Hdir Hb He Hdot Hbne Hene. unfold path_stem.
  assert (N : path_name (dir_slash ++ base ++ "."%char :: ext)
              = base ++ "."%char :: ext).
  { assert (Hn : ~ In "/"%char (base ++ "."%char :: ext)).
    { intros K. apply in_app_or in K as [K | [K | K]];
        [contradiction | discriminate | contradiction]. }
    destruct Hdir as [-> | [dir ->]].
    - now apply path_name_plain.
    - rewrite <- app_assoc. simpl. now apply path_name_dir. }
  rewrite N, rfind_from_last by assumption. simpl Nat.add.
  rewrite length_app. simpl length.
  replace ((0 <? length base) && (length base <? length base + S (length ext) - 1))
    with true.
  - rewrite firstn_app, firstn_all, Nat.sub_diag. simpl. apply app_nil_r.
  - symmetry. apply andb_true_iff. split; apply Nat.ltb_lt.
    + destruct base; [congruence | simpl; lia].
    + destruct ext; [congruence | simpl; lia].
Qed.

Lemma file_id_tests (dir_slash base ext : str) :
  (dir_slash = [] \/ exists dir, dir_slash = dir ++ ["/"%char]) ->
  ~ In "/"%char base -> ~ In "/"%char ext -> ~ In "."%char ext -> ext <> [] ->
  ~ substring $"Tests" (base ++ $"Test") ->
  file_id (dir_slash ++ (base ++ $"Tests") ++ "."%char :: ext) = base.
Proof.
  intros Hdir Hb He Hdot Hene Hsub. unfold file_id.
  rewrite path_stem_ext; trivial.
  - pose proof (replace_first $"Test" "s" [] base [] Hsub) as R.
    rewrite app_nil_r in R. simpl in R. rewrite app_nil_r in R. exact R.
  - intros K. apply in_app_or in K as [K | K]; [contradiction|].
    simpl in K. intuition discriminate.
  - destruct base; discriminate.
Qed.

(** X21.  A file named [<base>Tests.<ext>] has the identifier [<base>],
    whatever its directory and its extension, as long as "Tests" does
    not occur elsewhere in the name.  So a reference file
    [<base>Tests.<ext>] is never reported missing from a category whose
    target files include a [<base>Tests.<ext'>]. *)
Theorem X21_file_id_pairs
    (swift_dir csharp_dir base swift_ext csharp_ext : str) :
  (swift_dir = [] \/ exists dir, swift_dir = dir ++ ["/"%char]) ->
  (csharp_dir = [] \/ exists dir, csharp_dir = dir ++ ["/"%char]) ->
  ~ In "/"%char base ->
  ~ substring $"Tests" (base ++ $"Test") ->
  ~ In "/"%char swift_ext -> ~ In "."%char swift_ext -> swift_ext <> [] ->
  ~ In "/"%char csharp_ext -> ~ In "."%char csharp_ext -> csharp_ext <> [] ->
  let swift_file := swift_dir ++ (base ++ $"Tests") ++ "."%char :: swift_ext in
  let csharp_file := csharp_dir ++ (base ++ $"Tests") ++ "."%char :: csharp_ext in
  file_id swift_file = base /\
  file_id csharp_file = base /\
  (forall category swift_files csharp_files e,
      In csharp_file (keys csharp_files) ->
      In e (missing_in_category category swift_files csharp_files) ->
      mf_file e <> swift_file).
Proof.
  intros Hsd Hcd Hb Hsub Hs1 Hs2 Hs3 Hc1 Hc2 Hc3. cbn zeta.
  assert (Es : file_id (swift_dir ++ (base ++ $"Tests") ++ "."%char :: swift_ext)
               = base) by now apply file_id_tests.
  assert (Ec : file_id (csharp_dir ++ (base ++ $"Tests") ++ "."%char :: csharp_ext)
               = base) by now apply file_id_tests.
  split; [assumption|]. split; [assumption|].
  intros category sf cf e Hin He Hf.
  apply missing_in_category_In in He as [f [methods [_ [-> Hn]]]].
  cbn [mf_file] in Hf. subst f. apply Hn. rewrite Es, <- Ec. now apply in_map.
Qed.

Lemma X21_file_id_pairs_witness :
  file_id $"contract/GasTokenTests.swift" = $"GasToken" /\
  file_id $"Contract/GasTokenTests.cs" = $"GasToken".
Proof.
  destruct (X21_file_id_pairs $"contract/" $"Contract/" $"GasToken" $"swift" $"cs")
    as [H1 [H2 _]].
  - right. now exists $"contract".
  - right. now exists $"Contract".
  - vm_compute. intuition discriminate.
  - intros H. apply contains_substring in H. vm_compute in H. discriminate.
  - vm_compute. intuition discriminate.
  - vm_compute. intuition discriminate.
  - discriminate.
  - vm_compute. intuition discriminate.
  - vm_compute. intuition discriminate.
  - discriminate.
  - split; [exact H1 | exact H2].
Defined.

(** ** Missing files are reported once *)

Lemma NoDup_map_flat_map {A B C} (g : B -> C) (f : A -> list B) (l : list A) :
  NoDup l ->
  (forall x, In x l -> NoDup (map g (f x))) ->
  (forall x y b1 b2,
      In x l -> In y l -> In b1 (f x) -> In b2 (f y) -> g b1 = g b2 -> x = y) ->
  NoDup (map g (flat_map f l)).
Proof.
  induction l as [|x l IH]; intros N Hin Hsep; simpl; [constructor|].
  inversion N as [|? ? Hx Nl]; subst. rewrite map_app. apply NoDup_app.
  - apply Hin. now left.
  - apply IH; [assumption | |].
    + intros y Hy. apply Hin. now right.
    + intros y z b1 b2 Hy Hz. apply Hsep; now right.
  - intros c Hc1 Hc2. apply in_map_iff in Hc1 as [b1 [E1 H1]].
    apply in_map_iff in Hc2 as [b2 [E2 H2]].
    apply in_flat_map in H2 as [y [Hy H2]].
    assert (x = y).
    { apply (Hsep x y b1 b2); trivial; [now left | now right | congruence]. }
    subst y. contradiction.
Qed.

Lemma set_of_NoDup (l : list str) : NoDup (set_of l).
Proof.
  induction l as [|x l IH]; simpl; constructor.
  - intros H. apply filter_In in H as [_ H]. now rewrite str_eqb_refl in H.
  - now apply NoDup_filter.
Qed.

Lemma missing_group_files (category id : str) (swift_files : tests) :
  map mf_file
    (flat_map (fun item : str * list str =>
                 if str_eqb (file_id (fst item)) id
                 then [mk_missing_file category (fst item) (length (snd item)) (snd item)]
                 else [])
              swift_files)
  = filter (fun f => str_eqb (file_id f) id) (keys swift_files).
Proof.
  induction swift_files as [|[f m] l IH]; [reflexivity|]. simpl.
  destruct (str_eqb (file_id f) id); simpl; now rewrite IH.
Qed.

Lemma missing_in_category_NoDup (category : str) (swift_files csharp_files : tests) :
  NoDup (keys swift_files) ->
  NoDup (map mf_file (missing_in_category category swift_files csharp_files)).
Proof.
  intros N. unfold missing_in_category. apply NoDup_map_flat_map.
  - unfold set_difference. apply NoDup_filter, set_of_NoDup.
  - intros id _. rewrite missing_group_files. now apply NoDup_filter.
  - intros x y b1 b2 _ _ H1 H2 E.
    apply in_flat_map in H1 as [[f1 m1] [_ H1]].
    apply in_flat_map in H2 as [[f2 m2] [_ H2]]. simpl in H1, H2.
    destruct (str_eqb (file_id f1) x) eqn:E1; [|contradiction].
    destruct (str_eqb (file_id f2) y) eqn:E2; [|contradiction].
    destruct H1 as [<- | []]. destruct H2 as [<- | []]. simpl in E.
    apply str_eqb_eq in E1, E2. congruence.
Qed.

Lemma categorize_files_NoDup (test_dict : tests) :
  Forall (fun files : tests => NoDup (keys files))
         (values (categorize_tests test_dict)).
Proof.
  unfold categorize_tests.
  apply (fold_left_inv
           (fun acc : dict tests =>
              Forall (fun files : tests => NoDup (keys files)) (values acc))).
  - constructor.
  - intros acc [f m] Hacc. unfold categorize_step. simpl.
    apply dict_set_values; [assumption|]. apply dict_set_NoDup.
    destruct (dict_get acc (category_of f)) as [files|] eqn:E; [|constructor].
    exact (dict_get_value _ _ _ _ Hacc E).
Qed.

(** X22.  When the reference dictionary has each file once, no file is
    reported missing twice, and every reported file is a stored
    reference file, reported with its own methods, their number and the
    category of its path. *)
Theorem X22_missing_files_once (swift_tests csharp_tests : tests) :
  NoDup (keys swift_tests) ->
  let reported := missing_files (find_missing_coverage swift_tests csharp_tests) in
  NoDup (map mf_file reported) /\
  (forall e,
      In e reported ->
      In (mf_file e, mf_methods e) swift_tests /\
      mf_missing_methods e = length (mf_methods e) /\
      mf_category e = category_of (mf_file e)).
Proof.
  intros N. cbn zeta. unfold find_missing_coverage. cbn [missing_files].
  destruct (categorize_tests_files _ N) as [Hfiles _].
  destruct (categorize_tests_inv _ _ (all_methods_trivial swift_tests)) as [Nk _].
  pose proof (categorize_files_NoDup swift_tests) as Nf.
  assert (Ent : forall cat sf e,
             In (cat, sf) (categorize_tests swift_tests) ->
             In e match dict_get (categorize_tests csharp_tests) cat with
                  | Some csharp_files => missing_in_category cat sf csharp_files
                  | None => []
                  end ->
             In (mf_file e, mf_methods e) swift_tests /\
             mf_missing_methods e = length (mf_methods e) /\
             mf_category e = category_of (mf_file e)).
  { intros cat sf e Hin He.
    destruct (dict_get (categorize_tests csharp_tests) cat) as [cf|]; [|contradiction].
    apply missing_in_category_In in He as [f [m [Hf [-> _]]]]. simpl.
    apply categorize_tests_get in Hin.
    apply (Hfiles _ _ Hin) in Hf as [Hf Hc]. auto. }
  split.
  - apply NoDup_map_flat_map.
    + now apply NoDup_map_inv in Nk.
    + intros [cat sf] Hin. simpl.
      destruct (dict_get (categorize_tests csharp_tests) cat) as [cf|];
        [|constructor].
      apply missing_in_category_NoDup.
      rewrite Forall_forall in Nf. apply Nf. unfold values.
      apply in_map_iff. now exists (cat, sf).
    + intros [c1 s1] [c2 s2] b1 b2 H1 H2 B1 B2 E. simpl in B1, B2.
      destruct (Ent _ _ _ H1 B1) as [_ [_ C1]].
      destruct (Ent _ _ _ H2 B2) as [_ [_ C2]].
      assert (Hc : c1 = c2).
      { destruct (dict_get (categorize_tests csharp_tests) c1); [|contradiction].
        destruct (dict_get (categorize_tests csharp_tests) c2); [|contradiction].
        apply missing_in_category_category in B1, B2. congruence. }
      subst c2. apply categorize_tests_get in H1, H2. congruence.
  - intros e He. apply in_flat_map in He as [[cat sf] [Hin He]].
    now apply (Ent cat sf).
Qed.

Lemma X22_missing_files_once_witness :
  NoDup (map mf_file
           (missing_files
              (find_missing_coverage
                 [($"crypto/ATests.swift", [$"testA"]); ($"crypto/BTests.swift", [$"testB"])]
                 [($"Crypto/ATests.cs", [$"TestA"])]))).
Proof.
  apply (X22_missing_files_once
           [($"crypto/ATests.swift", [$"testA"]); ($"crypto/BTests.swift", [$"testB"])]
           [($"Crypto/ATests.cs", [$"TestA"])]).
  apply NoDup_cons; [intros [H | []]; discriminate|].
  apply NoDup_cons; [intros [] | apply NoDup_nil].
Defined.

(** ** The directory walks *)

Lemma dict_set_Forall {V} (P : str * V -> Prop) (d : dict V) (k : str) (v : V) :
  Forall P d -> P (k, v) -> Forall P (dict_set d k v).
Proof.
  induction d as [|[k' v'] d IH]; simpl; intros F p.
  - now repeat constructor.
  - inversion F; subst. destruct (str_eqb k k') eqn:E.
    + apply str_eqb_eq in E. subst k'. now constructor.
    + constructor; auto.
Qed.

Lemma analyze_file_well (helpers : list str) (is_swift : bool)
    (d : tests) (file : str * outcome str) :
  stored_well helpers d -> stored_well helpers (analyze_file helpers is_swift d file).
Proof.
  intros [N F]. unfold analyze_file.
  destruct (is_helper helpers (fst file)) eqn:H; [now split|].
  unfold record_tests. simpl.
  destruct (extract_test_methods (snd file) is_swift) as [|m ms] eqn:E; [now split|].
  split; [now apply dict_set_NoDup|]. apply dict_set_Forall; [assumption|].
  simpl. split; [discriminate|]. split; [assumption|].
  rewrite <- E. apply Forall_forall. intros n Hn.
  destruct (snd file) as [content|]; [|contradiction].
  unfold extract_test_methods in Hn. now apply filter_In in Hn.
Qed.

(** X23.  Both directory walks keep the stored dictionary in order: no
    file is stored twice, every stored file has at least one method, no
    stored file has a helper marker in its name, and every stored method
    name starts with "test" when letter case is ignored.  A file that
    cannot be read, and a file with a helper marker in its name, leave the
    dictionary as it is. *)
Theorem X23_directory_walks (visited : list (str * outcome str)) :
  stored_well swift_helpers (analyze_swift_tests [] visited) /\
  stored_well csharp_helpers (analyze_csharp_tests [] visited) /\
  (forall helpers is_swift d f,
      analyze_file helpers is_swift d (f, Raised) = d) /\
  (forall helpers is_swift d file,
      is_helper helpers (fst file) = true ->
      analyze_file helpers is_swift d file = d).
Proof.
  assert (G : forall helpers is_swift,
             stored_well helpers
               (fold_left (analyze_file helpers is_swift) visited [])).
  { intros helpers is_swift. apply fold_left_inv.
    - split; constructor.
    - intros d file. apply analyze_file_well. }
  split; [apply G|]. split; [apply G|]. split.
  - intros helpers is_swift d f. unfold analyze_file. simpl.
    now destruct (is_helper helpers f).
  - intros helpers is_swift d file H. unfold analyze_file. now rewrite H.
Qed.

Lemma X23_directory_walks_witness :
  analyze_file swift_helpers true [] ($"crypto/MockSigner.swift", Returned $"func testA() { }")
  = [].
Proof.
  destruct (X23_directory_walks []) as [_ [_ [_ H]]].
  apply H. now vm_compute.
Defined.





(** ** The verdict and the report totals *)

Lemma round_half_even_floor (q : Q) : (Qfloor q <= round_half_even q)%Z.
Proof.
  unfold round_half_even.
  destruct (q - inject_Z (Qfloor q) ?= 1 # 2)%Q; [|lia|lia].
  destruct (Z.even (Qfloor q)); lia.
Qed.

Lemma py_round_ge (q : Q) (n : Z) :
  (inject_Z n <= q)%Q -> number_geb (py_round (Fin q) 1) (inject_Z n) = true.
Proof.
  intros H. unfold py_round, number_geb. apply Qle_bool_iff.
  rewrite Qred_correct. change (10 ^ Z.of_nat 1)%Z with 10%Z.
  set (z := round_half_even (q * inject_Z 10)).
  assert (Hz : (n * 10 <= z)%Z).
  { subst z. etransitivity; [|apply round_half_even_floor].
    rewrite <- (Qfloor_Z (n * 10)). apply Qfloor_resp_le.
    rewrite inject_Z_mult. apply Qmult_le_compat_r; [assumption|].
    unfold Qle. simpl. lia. }
  unfold Qle, Qdiv, Qmult, Qinv, inject_Z. simpl. lia.
Qed.

Lemma ratio_ge_one (c s : nat) : 0 < s <= c -> (1 <= ratio c s)%Q.
Proof.
  intros [Hs Hc]. unfold ratio. rewrite Qred_correct.
  apply Qle_shift_div_l.
  - unfold Qlt, inject_Z. simpl. lia.
  - rewrite Qmult_1_l. rewrite <- Zle_Qle. lia.
Qed.

(** X24.  The verdict of the coverage report: without any reference
    method it is INSUFFICIENT, whatever the target suite holds; with
    reference methods and at least as many target methods it is COMPLETE
    when nothing is missing and SUBSTANTIAL when a category or a file is
    missing; and it is COMPLETE only when nothing is missing and there is
    a reference method. *)
Theorem X24_final_verdict (swift_tests csharp_tests : tests) :
  let missing := total_missing (find_missing_coverage swift_tests csharp_tests) in
  (count_methods swift_tests = 0 ->
   final_verdict swift_tests csharp_tests = VERDICT_INSUFFICIENT) /\
  (0 < count_methods swift_tests <= count_methods csharp_tests ->
   final_verdict swift_tests csharp_tests
   = if missing =? 0 then VERDICT_COMPLETE else VERDICT_SUBSTANTIAL) /\
  (final_verdict swift_tests csharp_tests = VERDICT_COMPLETE ->
   missing = 0 /\ 0 < count_methods swift_tests).
Proof.
  cbn zeta. unfold final_verdict, final_coverage_percentage. split; [|split].
  - intros H. rewrite H. reflexivity.
  - intros [Hs Hc].
    replace (0 <? count_methods swift_tests) with true
      by (symmetry; now apply Nat.ltb_lt).
    assert (Q100 : (inject_Z 100
                    <= ratio (count_methods csharp_tests) (count_methods swift_tests)
                       * 100)%Q).
    { pose proof (ratio_ge_one _ _ (conj Hs Hc)) as R.
      apply (Qmult_le_compat_r _ _ 100) in R; [|unfold Qle; simpl; lia].
      exact R. }
    assert (Q80 : (inject_Z 80
                   <= ratio (count_methods csharp_tests) (count_methods swift_tests)
                      * 100)%Q).
    { eapply Qle_trans; [|exact Q100]. unfold Qle. simpl. lia. }
    change 100%Q with (inject_Z 100) at 2. change 80%Q with (inject_Z 80).
    rewrite (py_round_ge _ _ Q100), (py_round_ge _ _ Q80). simpl.
    now destruct (_ =? 0).
  - destruct (count_methods swift_tests) as [|n] eqn:E.
    + simpl. discriminate.
    + destruct (number_geb _ 100 && (_ =? 0)) eqn:B.
      * intros _. apply andb_true_iff in B as [_ B]. apply Nat.eqb_eq in B.
        split; [assumption | lia].
      * destruct (number_geb _ 80); discriminate.
Qed.

Lemma X24_final_verdict_witness :
  final_verdict [] [($"Crypto/ATests.cs", [$"TestA"])] = VERDICT_INSUFFICIENT.
Proof.
  destruct (X24_final_verdict [] [($"Crypto/ATests.cs", [$"TestA"])]) as [H _].
  apply H. reflexivity.
Defined.

Lemma matched_le_swift (swift_file csharp_file : str)
    (swift_methods : list swift_method) (csharp_methods : list csharp_method) :
  length (matched_methods
            (analyze_file_pair swift_file csharp_file swift_methods csharp_methods))
  <= length swift_methods.
Proof.
  destruct (match_loop_closed csharp_methods swift_methods) as [M _].
  cbn zeta in M. unfold analyze_file_pair. cbn [matched_methods].
  rewrite M, <- (length_map me_swift), matched_of_swift. apply filter_length_le.
Qed.

(** X25.  In the mapping report the matched total never exceeds the
    reference total.  A pair of which one file does not exist adds
    nothing to the totals, and when no pair has both files the totals
    are zero and the summary shows coverage 0 and factor 0. *)
Theorem X25_report_totals (key_pairs : list key_pair) :
  let t := report_totals key_pairs in
  total_matched_methods t <= total_swift_methods t /\
  (forall t0 kp,
      swift_path kp = None \/ csharp_path kp = None -> report_step t0 kp = t0) /\
  (Forall (fun kp => swift_path kp = None \/ csharp_path kp = None) key_pairs ->
   t = mk_totals 0 0 0 /\ overall_coverage t = zero /\ overall_enhancement t = zero).
Proof.
  cbn zeta.
  assert (Skip : forall t0 kp,
             swift_path kp = None \/ csharp_path kp = None -> report_step t0 kp = t0).
  { intros t0 kp H. unfold report_step, analyze_key_pair.
    destruct H as [-> | H]; [reflexivity|]. rewrite H.
    now destruct (swift_path kp). }
  split; [|split; [exact Skip|]].
  - unfold report_totals.
    apply (fold_left_inv (fun t => total_matched_methods t <= total_swift_methods t)).
    + simpl. lia.
    + intros t kp Ht. unfold report_step.
      destruct (analyze_key_pair kp) as [[sw a]|] eqn:E; [|assumption].
      unfold analyze_key_pair in E.
      destruct (swift_path kp); [|discriminate].
      destruct (csharp_path kp); [|discriminate].
      injection E as <- <-. unfold add_totals.
      cbn [total_matched_methods total_swift_methods].
      pose proof (matched_le_swift (swift_rel kp) (csharp_rel kp)
                    (swift_methods_of (extract_detailed_test_methods o true))
                    (csharp_methods_of (extract_detailed_test_methods o0 false))).
      lia.
  - intros F.
    assert (E : report_totals key_pairs = mk_totals 0 0 0).
    { unfold report_totals. generalize (mk_totals 0 0 0).
      induction F as [|kp l Hkp F IH]; intros t0; [reflexivity|].
      simpl. rewrite Skip by assumption. apply IH. }
    rewrite E. repeat split.
Qed.

Lemma X25_report_totals_witness :
  report_step (mk_totals 3 2 1)
    (mk_key_pair $"crypto/NEP2Tests.swift" $"Crypto/NEP2Tests.cs"
                 None (Some (Returned $"")))
  = mk_totals 3 2 1.
Proof.
  destruct (X25_report_totals []) as [_ [H _]].
  apply H. now left.
Defined.

(** ** The body of a Swift method *)

Lemma firstn_succ_nth {A} (l : list A) (n : nat) (x : A) :
  nth_error l n = Some x -> firstn (S n) l = firstn n l ++ [x].
Proof.
  revert n. induction l as [|a l IH]; intros [|n] H; try discriminate.
  - now injection H as ->.
  - simpl in H. apply IH in H. simpl. simpl in H. now rewrite H.
Qed.

(** X26.  The text that follows the start of a Swift declaration is
    the declaration, its opening brace and the rest.  When no closing
    brace of the rest brings the brace count, started at the opening
    brace, back to zero, the record is built from the declaration without
    the brace.  Otherwise it is built from the declaration, the opening
    brace and the text up to and including the first closing brace at
    which the count is back to zero. *)
Theorem X26_swift_body (content : str) (m : re_match) :
  In m (finditer swift_pattern content) ->
  exists decl rest,
    skipn (m_start m) content = decl ++ "{"%char :: rest /\
    m_end m = m_start m + length decl + 1 /\
    (((forall k, ~ closes_at ("{"%char :: rest) 0 k) /\
      swift_method_body content m = decl) \/
     (exists k,
         closes_at ("{"%char :: rest) 0 (S k) /\
         swift_method_body content m
         = decl ++ "{"%char :: firstn k rest ++ ["}"%char])).
Proof.
  intros H. apply finditer_sound in H as [w [rest [E [M En]]]].
  apply swift_pattern_shape in M as [_ [decl ->]]. exists decl, rest.
  rewrite length_app in En. simpl in En.
  assert (Sl : forall n, slice (m_start m) (m_start m + n) content
                         = firstn n ((decl ++ ["{"%char]) ++ rest)).
  { intros n. unfold slice. rewrite skipn_firstn_comm, E. f_equal. lia. }
  split; [now rewrite E, <- app_assoc|]. split; [lia|].
  unfold swift_method_body, method_end_from.
  replace (m_end m - 1) with (m_start m + length decl) by lia.
  assert (Sk : skipn (m_start m + length decl) content = "{"%char :: rest).
  { rewrite Nat.add_comm, <- skipn_skipn, E, <- app_assoc.
    rewrite skipn_app, skipn_all, Nat.sub_diag. reflexivity. }
  rewrite Sk.
  destruct (scan_braces ("{"%char :: rest) (m_start m + length decl) 0)
    as [e|] eqn:Sc.
  - right. apply scan_braces_closes in Sc as [k [-> C]].
    destruct k as [|k]; [destruct C as [Hn _]; discriminate|].
    exists k. split; [exact C|]. destruct C as [Hn _]. simpl in Hn.
    rewrite <- Nat.add_assoc, Sl, <- app_assoc.
    rewrite firstn_app, firstn_all2 by lia.
    replace (length decl + S (S k) - length decl) with (S (S k)) by lia.
    change (["{"%char] ++ rest) with ("{"%char :: rest).
    change (firstn (S (S k)) ("{"%char :: rest))
      with ("{"%char :: firstn (S k) rest).
    now rewrite (firstn_succ_nth _ _ _ Hn).
  - left. split.
    + intros k C.
      assert (K : scan_braces ("{"%char :: rest) (m_start m + length decl) 0
                  = Some (m_start m + length decl + S k)).
      { apply scan_braces_closes. now exists k. }
      congruence.
    + rewrite Sl, <- app_assoc, firstn_app, firstn_all, Nat.sub_diag.
      simpl. apply app_nil_r.
Qed.

Lemma X26_swift_body_witness :
  exists decl rest,
    skipn 0 $"func testX() { b() }" = decl ++ "{"%char :: rest /\
    14 = 0 + length decl + 1 /\
    (((forall k, ~ closes_at ("{"%char :: rest) 0 k) /\
      swift_method_body $"func testX() { b() }" (mk_re_match 0 14 [(1, $"testX")])
      = decl) \/
     (exists k,
         closes_at ("{"%char :: rest) 0 (S k) /\
         swift_method_body $"func testX() { b() }" (mk_re_match 0 14 [(1, $"testX")])
         = decl ++ "{"%char :: firstn k rest ++ ["}"%char])).
Proof.
  apply (X26_swift_body $"func testX() { b() }" (mk_re_match 0 14 [(1, $"testX")])).
  vm_compute. now left.
Defined.

(** ** The test prefix *)

(** X27.  A leading "test", in any letter case, is optional for
    matching: a name whose lower-cased form is "test" followed by [y]
    normalizes to the same string as [y] itself, unless [y] starts with
    "test" again. *)
Theorem X27_prefix_optional (name y : str) :
  lower name = $"test" ++ y ->
  startswith y $"test" = false ->
  normalize_test_name name = normalize_test_name y.
Proof.
  intros H Hy.
  assert (Ly : lower y = y).
  { pose proof (lower_idem name) as I. rewrite H in I. unfold lower in I.
    rewrite map_app in I. now apply app_inv_head in I. }
  unfold normalize_test_name. rewrite H, Ly, Hy.
  replace (startswith ($"test" ++ y) $"test") with true
    by (symmetry; apply startswith_app; now exists y).
  reflexivity.
Qed.

Lemma X27_prefix_optional_witness :
  normalize_test_name $"TestGetBalance" = normalize_test_name $"getbalance".
Proof.
  apply X27_prefix_optional; now vm_compute.
Defined.
